(** * ecmaos WASM kernel: command shell and host boundary

    A shallow embedding of the C++ sources

      - [core/bios/src/commands/execute.cpp]   (registry and dispatcher)
      - [core/bios/src/commands/echo.cpp], [cat.cpp], [rm.cpp]
      - [core/kernel.wasm/src/commands/ls.cpp]
      - [core/kernel.wasm/src/kernel.cpp]      (exported boundary functions)

    The program is sequential and effectful: it reads and writes a virtual
    file system, allocates buffers with [malloc], prints through the
    Emscripten console and may unwind with a C++ exception.  Every function
    is therefore a state transformer over a [World] that yields an
    [outcome]: a returned value, a thrown exception, or undefined behaviour
    where a store would leave its block.

    Layout: [SizeT], [CxxString] and [CxxSubstr] model [size_t] and
    [std::string]; [Console] and [Sys] the console and the libc / iostream
    calls; [commands] and [kernel] the program itself, function by function
    and under the names of the source; [Spec] the words of the
    specification.  The properties follow. *)

From Stdlib Require Import ZArith Lia Ascii String List.
From stdpp Require Import base option list gmap strings.

Local Open Scope string_scope.
Local Open Scope Z_scope.

(** String concatenation is written [+:+]; it unfolds on a constructor. *)
#[local] Arguments String.append !s1 s2 : simpl nomatch.

(** ** [size_t] on wasm32 *)

Module SizeT.

(** Emscripten targets wasm32: [size_t] is an unsigned 32-bit integer. *)
Definition bits : Z := 32.
Definition modulus : Z := 2 ^ bits.

(** Unsigned arithmetic is reduced modulo [2^32]. *)
Definition wrap (z : Z) : Z := z mod modulus.

(** [std::string::npos] is [static_cast<size_t>(-1)]. *)
Definition npos : Z := wrap (-1).

Definition add (a b : Z) : Z := wrap (a + b).

End SizeT.

(** ** [std::string] and C strings *)

Module CxxString.
Import SizeT.

Definition NUL : ascii := "000"%char.
Definition blank_set : string := String " " (String "009" EmptyString).

Definition size (s : string) : Z := Z.of_nat (String.length s).
Definition empty (s : string) : bool :=
  match s with EmptyString => true | String _ _ => false end.

(** Membership of a character in the character set given to
    [find_first_not_of] / [find_last_not_of]. *)
Fixpoint mem (c : ascii) (set : string) : bool :=
  match set with
  | EmptyString => false
  | String a rest => Ascii.eqb c a || mem c rest
  end.

(** Index of the first character satisfying [p]. *)
Fixpoint first_index (p : ascii -> bool) (s : string) : option nat :=
  match s with
  | EmptyString => None
  | String a rest =>
      if p a then Some O else option_map S (first_index p rest)
  end.

(** Index of the last character satisfying [p]. *)
Fixpoint last_index (p : ascii -> bool) (s : string) : option nat :=
  match s with
  | EmptyString => None
  | String a rest =>
      match last_index p rest with
      | Some i => Some (S i)
      | None => if p a then Some O else None
      end
  end.

(** A search result as a [size_t]: the index, or [npos]. *)
Definition position (r : option nat) : Z :=
  match r with Some i => Z.of_nat i | None => npos end.

Definition find (s : string) (c : ascii) : Z :=
  position (first_index (Ascii.eqb c) s).
Definition find_first_not_of (s set : string) : Z :=
  position (first_index (fun a => negb (mem a set)) s).
Definition find_last_not_of (s set : string) : Z :=
  position (last_index (fun a => negb (mem a set)) s).

(** [const char*] view of a string: the bytes before the first NUL. *)
Fixpoint c_str (s : string) : string :=
  match s with
  | EmptyString => EmptyString
  | String a rest =>
      if Ascii.eqb a NUL then EmptyString else String a (c_str rest)
  end.

Definition strlen (s : string) : Z := size (c_str s).

(** [s.back()]; [None] on the empty string, where the call is undefined. *)
Fixpoint back (s : string) : option ascii :=
  match s with
  | EmptyString => None
  | String a EmptyString => Some a
  | String _ rest => back rest
  end.

(** [std::string(n, c)]. *)
Definition fill (n : Z) (c : ascii) : string :=
  string_of_list_ascii (List.repeat c (Z.to_nat n)).

Fixpoint drop (n : nat) (s : string) : string :=
  match n, s with
  | O, _ => s
  | S _, EmptyString => EmptyString
  | S n', String _ rest => drop n' rest
  end.

Fixpoint take (n : nat) (s : string) : string :=
  match n, s with
  | O, _ => EmptyString
  | S _, EmptyString => EmptyString
  | S n', String a rest => String a (take n' rest)
  end.

End CxxString.

(** ** Outcomes: normal return or C++ exception *)

Inductive exception : Type :=
| out_of_range      (* std::out_of_range, thrown by basic_string::substr *).

Inductive outcome (A : Type) : Type :=
| Returned (a : A)
| Thrown (e : exception)
| Undefined.          (* a store outside an allocated block *)
Arguments Returned {A} a.
Arguments Thrown {A} e.
Arguments Undefined {A}.

Module CxxSubstr.
Import SizeT CxxString.

(** [s.substr(pos, n)]: throws [std::out_of_range] when [pos > size()],
    otherwise the characters [pos .. pos + min(n, size() - pos)). *)
Definition substr (s : string) (pos n : Z) : outcome string :=
  if size s <? pos then Thrown out_of_range
  else Returned (take (Z.to_nat (Z.min n (size s - pos)))
                      (drop (Z.to_nat pos) s)).

(** [s.substr(pos)]: the count defaults to [npos]. *)
Definition substr_from (s : string) (pos : Z) : outcome string :=
  substr s pos npos.

End CxxSubstr.

(** ** The world outside the program

    The Emscripten virtual file system is a table from path names to
    inodes; a directory inode carries the names [readdir] yields for it, in
    that order.  How the host keeps a directory listing in step with the
    files created below it is outside the code modelled here, and nothing
    below relies on it.  Paths are compared as strings: an alias of a path
    (through [.], [..] or a doubled separator) is another key of the table.
    The statements below therefore speak of the path an operation is
    given, never of what it leaves alone elsewhere.  Whether a path may be opened for writing, whether a
    read hits an I/O error and whether [malloc] finds room are decided by the
    host: they are oracles of the world, so that every guard of the code can
    be taken either way. *)

Inductive inode : Type :=
| IFile (data : string)
| IDir (names : list string).

Inductive level : Type := Info | Warn | Error.

Record World : Type := mkWorld {
  vfs      : gmap string inode;
  may_write : string -> bool;        (* the host lets this path be opened for writing *)
  io_fault : string -> bool;         (* reading this file hits an I/O error *)
  heap     : Z -> option string;     (* malloc(n): no room, or the stale bytes of the block *)
  shims    : nat;                    (* console wrappers installed so far *)
  printed  : list (level * string);  (* what the original console methods print *)
  sink     : list (string * level)   (* calls of globalThis.log(text, level) *)
}.

Definition with_vfs (f : gmap string inode) (w : World) : World :=
  mkWorld f (may_write w) (io_fault w) (heap w) (shims w) (printed w) (sink w).
Definition with_shims (n : nat) (w : World) : World :=
  mkWorld (vfs w) (may_write w) (io_fault w) (heap w) n (printed w) (sink w).
Definition with_console (p : list (level * string)) (s : list (string * level))
    (w : World) : World :=
  mkWorld (vfs w) (may_write w) (io_fault w) (heap w) (shims w) p s.

(** ** The monad of the program: state and exceptions *)

Definition M (A : Type) : Type := World -> outcome A * World.

Definition ret {A} (a : A) : M A := fun w => (Returned a, w).

Definition bind {A B} (m : M A) (k : A -> M B) : M B :=
  fun w =>
    match m w with
    | (Returned a, w') => k a w'
    | (Thrown e, w') => (Thrown e, w')
    | (Undefined, w') => (Undefined, w')
    end.

Definition lift {A} (o : outcome A) : M A := fun w => (o, w).

(** [try { body } catch (const std::exception& e) { handler }]. *)
Definition try_catch {A} (body : M A) (handler : exception -> M A) : M A :=
  fun w =>
    match body w with
    | (Thrown e, w') => handler e w'
    | r => r
    end.

Notation "'do' x <- m ; k" := (bind m (fun x => k))
  (at level 10, x name, m at level 100, k at level 200).
Notation "'run' m ; k" := (bind m (fun _ => k))
  (at level 10, m at level 100, k at level 200).

(** [e.what()]. *)
Definition what (e : exception) : string :=
  match e with out_of_range => "basic_string" end.

(** ** Emscripten console

    [emscripten_console_log] and [emscripten_console_error] call
    [console.log] and [console.error].  Each wrapper installed by
    [init_console_handlers] first calls [globalThis.log] and then the method
    it replaced, so with [k] wrappers in place a message reaches the sink [k]
    times and is then printed once.  [console.warn] is never wrapped. *)

Module Console.

Definition emit (wrapped : bool) (lv : level) (text : string) (w : World)
    : World :=
  with_console (printed w ++ [(lv, text)])
               (sink w ++ (if wrapped then List.repeat (text, lv) (shims w) else []))
               w.

Definition emscripten_console_log (text : string) : M unit :=
  fun w => (Returned tt, emit true Info text w).
Definition emscripten_console_error (text : string) : M unit :=
  fun w => (Returned tt, emit true Error text w).
Definition emscripten_console_warn (text : string) : M unit :=
  fun w => (Returned tt, emit false Warn text w).

End Console.

(** ** libc and iostream primitives over the world *)

Module Sys.
Import SizeT CxxString.

(** POSIX: the empty path name never resolves (ENOENT). *)
Definition resolve (w : World) (path : string) : option inode :=
  if empty path then None else vfs w !! path.

(** [stat(path, &st)]: [Some (S_ISDIR st.st_mode)] when it returns 0. *)
Definition stat (path : string) : M (option bool) :=
  fun w =>
    (Returned match resolve w path with
              | Some (IDir _) => Some true
              | Some (IFile _) => Some false
              | None => None
              end, w).

(** [opendir] followed by [readdir] until it returns null: the entry names
    in iteration order.  [d_name] is a NUL-terminated array. *)
Definition opendir (path : string) : M (option (list string)) :=
  fun w =>
    (Returned match resolve w path with
              | Some (IDir names) => Some (List.map c_str names)
              | _ => None
              end, w).

Definition dot_entry (name : string) : bool :=
  String.eqb name "." || String.eqb name "..".

(** [remove(path)]: unlinks a file, removes an empty directory; [true]
    stands for the return value 0. *)
Definition remove (path : string) : M bool :=
  fun w =>
    match resolve w path with
    | Some (IFile _) => (Returned true, with_vfs (delete path (vfs w)) w)
    | Some (IDir names) =>
        if forallb dot_entry (List.map c_str names)
        then (Returned true, with_vfs (delete path (vfs w)) w)
        else (Returned false, w)
    | None => (Returned false, w)
    end.

(** [std::ofstream file(path)] (mode [out | trunc], with or without
    [binary]: Emscripten does no newline translation).  [Some path] stands
    for a stream with [is_open()]; the file then exists and is empty. *)
Definition ofstream (path : string) : M (option string) :=
  fun w =>
    match resolve w path with
    | Some (IDir _) => (Returned None, w)
    | _ =>
        if negb (empty path) && may_write w path
        then (Returned (Some path),
              with_vfs (<[path := IFile EmptyString]> (vfs w)) w)
        else (Returned None, w)
    end.

(** [file << s] / [file.write(p, n)] on an open stream, flushed when the
    stream is closed or destroyed at the end of the scope. *)
Definition ofstream_write (file : string) (bytes : string) : M unit :=
  fun w =>
    match vfs w !! file with
    | Some (IFile old) =>
        (Returned tt, with_vfs (<[file := IFile (old +:+ bytes)]> (vfs w)) w)
    | _ => (Returned tt, w)
    end.

(** An input stream: the file it reads and the get position. *)
Record ifstream : Type := mkIfstream {
  in_path : string;
  in_data : string;
  in_pos  : Z
}.

(** [std::ifstream file(path, std::ios::binary | std::ios::ate)]: on
    success the get position is the end of the file. *)
Definition ifstream_ate (path : string) : M (option ifstream) :=
  fun w =>
    (Returned match resolve w path with
              | Some (IFile d) => Some (mkIfstream path d (size d))
              | _ => None
              end, w).

Definition tellg (f : ifstream) : Z := in_pos f.
Definition seekg (f : ifstream) (off : Z) : ifstream :=
  mkIfstream (in_path f) (in_data f) off.

(** [memcpy] of [src] to the start of [buf]. *)
Definition overwrite (buf src : string) : string :=
  src +:+ drop (String.length src) buf.

(** [file.read(buf, n)]: storing [n] bytes in a smaller block is
    undefined; otherwise the read fails ([None], failbit) on an I/O error
    or when fewer than [n] bytes remain, and else fills the block. *)
Definition read (f : ifstream) (buf : string) (n : Z) : M (option string) :=
  fun w =>
    if size buf <? n then (Undefined, w)
    else if io_fault w (in_path f) || (size (in_data f) <? in_pos f + n)
    then (Returned None, w)
    else (Returned (Some (overwrite buf
            (take (Z.to_nat n) (drop (Z.to_nat (in_pos f)) (in_data f))))), w).

(** [malloc(n)]: null, or a block of [n] bytes of unspecified content. *)
Definition malloc (n : Z) : M (option string) :=
  fun w =>
    (Returned match heap w n with
              | Some stale => Some (take (Z.to_nat n) (stale +:+ fill n NUL))
              | None => None
              end, w).

(** [buf[i] = c]. *)
Definition store (buf : string) (i : Z) (c : ascii) : outcome string :=
  if (0 <=? i) && (i <? size buf)
  then Returned (take (Z.to_nat i) buf +:+ String c (drop (S (Z.to_nat i)) buf))
  else Undefined.

(** [strcpy(buf, src)]: copies the C string and its terminator. *)
Definition strcpy (buf src : string) : outcome string :=
  if strlen src <? size buf
  then Returned (overwrite buf (c_str src +:+ String NUL EmptyString))
  else Undefined.

End Sys.

(** ** Shell commands ([namespace commands]) *)

Module commands.
Import SizeT CxxString CxxSubstr Console Sys.

(** A handler: a function from the argument string to an [int] status. *)
Definition CommandFunction : Type := string -> M Z.

(** One turn of the [readdir] loop of [ls].  [full_path.back()] on an
    empty path would be undefined; the loop never runs on one, see
    [opendir_nonempty]. *)
Definition ls_entry (path d_name : string) : M unit :=
  let full_path := path in
  let full_path :=
    match back full_path with
    | Some "/"%char => full_path
    | _ => full_path +:+ "/"
    end in
  let full_path := full_path +:+ d_name in
  do st <- stat (c_str full_path);
  match st with
  | Some is_dir =>
      let entry_type := if is_dir then "d" else "-" in
      let entry_info := entry_type +:+ " " +:+ d_name in
      emscripten_console_log (c_str entry_info)
  | None => emscripten_console_log d_name
  end.

Fixpoint readdir_loop (body : string -> M unit) (entries : list string)
    : M unit :=
  match entries with
  | [] => ret tt
  | entry :: rest => run body entry; readdir_loop body rest
  end.

(** [commands::ls] ([ls.cpp]).  [path] is a [const char*]: the literal
    ["/"] or [args.c_str()]. *)
Definition ls (args : string) : M Z :=
  run emscripten_console_log "ls command executing";
  let path := if empty args then "/" else c_str args in
  run emscripten_console_log "Listing directory:";
  run emscripten_console_log path;
  do dir <- opendir path;
  match dir with
  | None =>
      run emscripten_console_error "Failed to open directory: ";
      run emscripten_console_error path;
      ret (-1)
  | Some entries =>
      run readdir_loop (ls_entry path) entries;
      ret 0
  end.

(** [commands::cat] ([cat.cpp]).  The stream is opened on the C string of
    [args]; [content] is a [std::string] of [size] NUL bytes that [read]
    fills. *)
Definition cat (args : string) : M Z :=
  if empty args then
    run emscripten_console_error "Usage: cat <filename>";
    ret (-1)
  else
    do file <- ifstream_ate (c_str args);
    match file with
    | None =>
        run emscripten_console_error "Failed to open file";
        ret (-1)
    | Some file =>
        let size := tellg file in
        let file := seekg file 0 in
        let content := fill (wrap size) NUL in
        do r <- read file content size;
        match r with
        | None =>
            run emscripten_console_error "Failed to read file";
            ret (-1)
        | Some content =>
            run emscripten_console_log (c_str content);
            ret 0
        end
    end.

(** [commands::echo] ([echo.cpp]).  Each of the four [substr] calls may
    throw; [gt_pos + 1] and [find_last_not_of(...) + 1] are [size_t]
    additions. *)
Definition echo (args : string) : M Z :=
  let gt_pos := find args ">" in
  if negb (gt_pos =? npos) then
    do content <- lift (substr args 0 gt_pos);
    do filename <- lift (substr_from args (add gt_pos 1));
    do content <-
      lift (substr content 0 (add (find_last_not_of content blank_set) 1));
    do filename <-
      lift (substr_from filename (find_first_not_of filename blank_set));
    do file <- ofstream (c_str filename);
    match file with
    | None =>
        run emscripten_console_error "Failed to open file for writing";
        ret (-1)
    | Some file =>
        run ofstream_write file content;
        ret 0
    end
  else
    run emscripten_console_log (c_str args);
    ret 0.

(** [commands::rm] ([rm.cpp]). *)
Definition rm (args : string) : M Z :=
  if empty args then
    run emscripten_console_error "Usage: rm <filename>";
    ret (-1)
  else
    do removed <- remove (c_str args);
    if removed then ret 0
    else
      run emscripten_console_error "Failed to delete file";
      ret (-1).

(** The registry: a [std::unordered_map] from names to handlers. *)
Definition command_registry : gmap string CommandFunction :=
  list_to_map [("ls", ls); ("cat", cat); ("echo", echo); ("rm", rm)].

(** [commands::execute_command] ([execute.cpp]).  Of each conditional
    expression only the chosen branch is evaluated. *)
Definition execute_command (command : string) : M Z :=
  let space_pos := find command " " in
  do cmd <-
    (if negb (space_pos =? npos) then lift (substr command 0 space_pos)
     else ret command);
  do args <-
    (if negb (space_pos =? npos)
     then lift (substr_from command (add space_pos 1))
     else ret EmptyString);
  match command_registry !! cmd with
  | None =>
      run emscripten_console_error "Unknown command";
      ret (-1)
  | Some handler => handler args
  end.

End commands.

(** ** Exported boundary functions ([kernel.cpp]) *)

Module kernel.
Import SizeT CxxString CxxSubstr Console Sys.

Inductive KernelState : Type := BOOTING | RUNNING | PANIC | SHUTDOWN.

(** [static_cast<int>]: the position in the declaration. *)
Definition KernelState_to_int (s : KernelState) : Z :=
  match s with
  | BOOTING => 0
  | RUNNING => 1
  | PANIC => 2
  | SHUTDOWN => 3
  end.

(** Wraps [console.log] and [console.error] once more. *)
Definition init_console_handlers : M unit :=
  fun w => (Returned tt, with_shims (S (shims w)) w).

(** [init]. *)
Definition init : M Z :=
  run init_console_handlers;
  run emscripten_console_log "Kernel initializing...";
  run emscripten_console_warn "This is an experimental WASM kernel";
  ret (KernelState_to_int RUNNING).

(** [get_version]. *)
Definition get_version : M string :=
  run emscripten_console_log "Version requested";
  ret "0.1.0-wasm".

(** [execute].  A [const char*] argument is [None] for the null pointer
    and else the bytes it points to, read up to the first NUL.  There is no
    [try] here: what the dispatcher throws leaves the function. *)
Definition execute (command : option string) : M Z :=
  match command with
  | Some command =>
      if negb (empty (c_str command)) then
        let cmd := c_str command in
        commands.execute_command cmd
      else
        run emscripten_console_error "Empty or invalid command";
        ret (-1)
  | None =>
      run emscripten_console_error "Empty or invalid command";
      ret (-1)
  end.

(** [write_file]: [file.write(content, strlen(content))] stores the first
    [strlen(content)] bytes. *)
Definition write_file (path content : string) : M Z :=
  try_catch
    (do file <- ofstream path;
     match file with
     | None =>
         run emscripten_console_error "Failed to open file for writing";
         ret (-1)
     | Some file =>
         run ofstream_write file (take (Z.to_nat (strlen content)) content);
         run emscripten_console_log "File written successfully";
         ret 0
     end)
    (fun e => run emscripten_console_error (what e); ret (-1)).

(** [read_file].  The block is [static_cast<size_t>(size) + 1] bytes;
    [free(buffer)] on the failed read has no effect that can be observed
    here.  [None] stands for the null pointer. *)
Definition read_file (path : string) : M (option string) :=
  try_catch
    (do file <- ifstream_ate path;
     match file with
     | None =>
         run emscripten_console_error "Failed to open file for reading";
         ret None
     | Some file =>
         let size := tellg file in
         let file := seekg file 0 in
         do buffer <- malloc (add (wrap size) 1);
         match buffer with
         | None =>
             run emscripten_console_error "Failed to allocate memory";
             ret None
         | Some buffer =>
             do r <- read file buffer size;
             match r with
             | None =>
                 run emscripten_console_error "Failed to read file";
                 ret None
             | Some buffer =>
                 do buffer <- lift (store buffer size NUL);
                 ret (Some buffer)
             end
         end
     end)
    (fun e => run emscripten_console_error (what e); ret None).

(** [file_exists]. *)
Definition file_exists (path : string) : M Z :=
  do st <- stat path;
  ret (match st with Some _ => 1 | None => 0 end).

(** [delete_file]. *)
Definition delete_file (path : string) : M Z :=
  do removed <- remove path;
  if removed then
    run emscripten_console_log "File deleted successfully";
    ret 0
  else
    run emscripten_console_error "Failed to delete file";
    ret (-1).

(** The accumulation [result += entry->d_name; result += "\n"]. *)
Fixpoint listing (result : string) (entries : list string) : string :=
  match entries with
  | [] => result
  | d_name :: rest =>
      listing ((result +:+ c_str d_name) +:+ String "010" EmptyString) rest
  end.

(** [list_directory]. *)
Definition list_directory (path : string) : M (option string) :=
  do dir <- opendir path;
  match dir with
  | None =>
      run emscripten_console_error "Failed to open directory";
      ret None
  | Some entries =>
      let result := listing EmptyString entries in
      do buffer <- malloc (add (size result) 1);
      match buffer with
      | None =>
          run emscripten_console_error
            "Failed to allocate memory for directory listing";
          ret None
      | Some buffer =>
          do buffer <- lift (strcpy buffer (c_str result));
          ret (Some buffer)
      end
  end.

End kernel.

(** ** Vocabulary of the specification

    Trimming as the specification words it: remove the longest run of
    spaces and tabs at the end ([rtrim]) or at the start ([ltrim]). *)

Module Spec.
Import CxxString.

Definition blank (c : ascii) : bool := mem c blank_set.

Fixpoint all_blank (s : string) : bool :=
  match s with
  | EmptyString => true
  | String a rest => blank a && all_blank rest
  end.

Fixpoint ltrim (s : string) : string :=
  match s with
  | EmptyString => EmptyString
  | String a rest => if blank a then ltrim rest else s
  end.

Fixpoint rtrim (s : string) : string :=
  match s with
  | EmptyString => EmptyString
  | String a rest =>
      match rtrim rest with
      | EmptyString => if blank a then EmptyString else String a EmptyString
      | t => String a t
      end
  end.

(** The text before and the text after the first occurrence of [c];
    [None] when [c] does not occur. *)
Fixpoint cut (c : ascii) (s : string) : option (string * string) :=
  match s with
  | EmptyString => None
  | String x rest =>
      if Ascii.eqb x c then Some (EmptyString, rest)
      else match cut c rest with
           | Some (before, after) => Some (String x before, after)
           | None => None
           end
  end.

(** A raw line as name and argument: split at the first space; without a
    space the whole line is the name and the argument is empty. *)
Definition split_line (line : string) : string * string :=
  match cut " " line with
  | Some (name, argument) => (name, argument)
  | None => (line, EmptyString)
  end.

(** The four built-in commands, by exact match of the name. *)
Definition registered (name : string) : option commands.CommandFunction :=
  if String.eqb name "ls" then Some commands.ls
  else if String.eqb name "cat" then Some commands.cat
  else if String.eqb name "echo" then Some commands.echo
  else if String.eqb name "rm" then Some commands.rm
  else None.

(** Messages sent through [console.log] / [console.error] one after the
    other. *)
Fixpoint emit_all (msgs : list (level * string)) (w : World) : World :=
  match msgs with
  | [] => w
  | (lv, text) :: rest => emit_all rest (Console.emit true lv text w)
  end.

(** At least one error-level message was printed between [w] and [w']. *)
Definition error_logged (w w' : World) : Prop :=
  exists msgs text,
    printed w' = (printed w ++ msgs)%list /\ In (Error, text) msgs.

(** At least one message was printed between [w] and [w']. *)
Definition something_logged (w w' : World) : Prop :=
  exists msg msgs, printed w' = (printed w ++ msg :: msgs)%list.

(** Nothing reached the console or the sink between [w] and [w']. *)
Definition nothing_logged (w w' : World) : Prop :=
  printed w' = printed w /\ sink w' = sink w.

(** How an operation pairs its outcomes with messages. *)
Definition fails_loudly (f : M Z) : Prop :=
  forall w status,
    fst (f w) = Returned status -> status < 0 ->
    error_logged w (snd (f w)).
Definition null_loudly (f : M (option string)) : Prop :=
  forall w, fst (f w) = Returned None -> error_logged w (snd (f w)).
Definition succeeds_loudly (f : M Z) : Prop :=
  forall w, fst (f w) = Returned 0 -> something_logged w (snd (f w)).
Definition succeeds_silently (f : M Z) : Prop :=
  forall w, fst (f w) = Returned 0 -> nothing_logged w (snd (f w)).

(** The world after [n] calls of [init]. *)
Fixpoint after_inits (n : nat) (w : World) : World :=
  match n with
  | O => w
  | S k => snd (kernel.init (after_inits k w))
  end.

(** No NUL byte occurs in the string. *)
Definition nul_free (s : string) : bool := negb (mem NUL s).

(** The path [ls] queries for an entry: directory and name, with a
    separator between them unless the directory already ends in one. *)
Definition ends_in_slash (dir : string) : bool :=
  match back dir with Some "/"%char => true | _ => false end.
Definition joined (dir name : string) : string :=
  if ends_in_slash dir then dir +:+ name else dir +:+ "/" +:+ name.

(** The type query on a path: [Some true] for a directory, [Some false]
    for anything else that exists, [None] when the query fails. *)
Definition query (w : World) (path : string) : option bool :=
  match Sys.resolve w path with
  | Some (IDir _) => Some true
  | Some (IFile _) => Some false
  | None => None
  end.

(** The line [ls] logs for an entry, given the answer of the type query. *)
Definition entry_line (query : option bool) (name : string) : string :=
  match query with
  | Some true => "d " +:+ name
  | Some false => "- " +:+ name
  | None => name
  end.

(** Every entry name followed by one newline, in the given order. *)
Fixpoint newline_joined (names : list string) : string :=
  match names with
  | [] => EmptyString
  | n :: rest => n +:+ String "010" EmptyString +:+ newline_joined rest
  end.

End Spec.

(** ** Sample worlds

    Small concrete worlds on which the statements below are exercised. *)

Module Sample.
Import CxxString.

(** The bytes [a], NUL, [b]. *)
Definition a_nul_b : string :=
  String "a" (String NUL (String "b" EmptyString)).

Definition disk : gmap string inode :=
  list_to_map
    [("/", IDir ["."; ".."; "a.txt"; "blob"; "empty"; "docs"]);
     ("/a.txt", IFile "hello");
     ("/blob", IFile a_nul_b);
     ("/empty", IFile EmptyString);
     ("/docs", IDir ["."; ".."])].

(** A host that grants every write, never fails a read and always has
    room; no console wrapper installed yet. *)
Definition world : World :=
  mkWorld disk (fun _ => true) (fun _ => false)
          (fun _ => Some EmptyString) 0 [] [].

(** The same disk on a host whose heap has room left for blocks of at
    most three bytes. *)
Definition world_low_memory : World :=
  mkWorld disk (fun _ => true) (fun _ => false)
          (fun n => if n <=? 3 then Some EmptyString else None) 0 [] [].

(** The same disk on a host that refuses every write. *)
Definition world_read_only : World :=
  mkWorld disk (fun _ => false) (fun _ => false)
          (fun _ => Some EmptyString) 0 [] [].

End Sample.

(** ** Frames

    What an operation leaves alone, said once for all operations: a
    relation between the world before and the world after that every step
    keeps, or a set the returned value stays in. *)

Module Frame.
Import CxxString.

(** Every run of [m] takes a world to one related to it by [R], however
    the run ends. *)
Definition respects (R : World -> World -> Prop) {A : Type} (m : M A)
    : Prop :=
  forall w, R w (snd (m w)).

(** Whatever [m] returns satisfies [P]. *)
Definition returns_in {A : Type} (P : A -> Prop) (m : M A) : Prop :=
  forall w a, fst (m w) = Returned a -> P a.

(** The file table is the same. *)
Definition same_files (w w' : World) : Prop := vfs w' = vfs w.

(** What the sink receives for one printed message when [k] wrappers are
    installed: [k] copies, and nothing for a warning. *)
Definition mirror (k : nat) (msg : level * string) : list (string * level) :=
  match fst msg with
  | Warn => []
  | lv => List.repeat (snd msg, lv) k
  end.

(** Between [w] and [w'] no wrapper was installed, messages were only
    added, and the sink received each of them as [mirror] says, in the
    order they were printed. *)
Definition console_extends (w w' : World) : Prop :=
  shims w' = shims w /\
  exists msgs,
    printed w' = (printed w ++ msgs)%list /\
    sink w' = (sink w ++ flat_map (mirror (shims w)) msgs)%list.

(** The two status codes of the shell. *)
Definition exit_code (status : Z) : Prop := status = 0 \/ status = -1.

(** A listing read back: the text is cut after every newline; what
    follows the last newline is no entry. *)
Fixpoint lines_from (current text : string) : list string :=
  match text with
  | EmptyString => []
  | String c rest =>
      if Ascii.eqb c "010"
      then current :: lines_from EmptyString rest
      else lines_from (current +:+ String c EmptyString) rest
  end.
Definition lines (text : string) : list string :=
  lines_from EmptyString text.

Definition newline_free (s : string) : bool := negb (mem "010" s).

End Frame.

(** * Properties *)

(** ** Strings *)

Section StringFacts.
Import SizeT CxxString Spec.

Lemma npos_value : npos = 4294967295.
Proof. reflexivity. Qed.

Lemma wrap_small (z : Z) : 0 <= z < modulus -> wrap z = z.
Proof. intros H. unfold wrap. now apply Z.mod_small. Qed.

Lemma wrap_npos_succ : add npos 1 = 0.
Proof. reflexivity. Qed.

Lemma size_nonneg (s : string) : 0 <= size s.
Proof. unfold size. lia. Qed.

Lemma size_app (a b : string) : size (a +:+ b) = size a + size b.
Proof.
  unfold size. induction a as [|x a IH]; cbn; lia.
Qed.

Lemma size_cons (c : ascii) (s : string) : size (String c s) = 1 + size s.
Proof. unfold size. cbn [String.length]. lia. Qed.

Lemma app_assoc_s (a b c : string) : (a +:+ b) +:+ c = a +:+ (b +:+ c).
Proof. induction a as [|x a IH]; cbn; [reflexivity | now rewrite IH]. Qed.

Lemma app_empty_r (a : string) : a +:+ EmptyString = a.
Proof. induction a as [|x a IH]; cbn; [reflexivity | now rewrite IH]. Qed.

Lemma take_app_exact (a b : string) : take (String.length a) (a +:+ b) = a.
Proof. induction a as [|x a IH]; cbn; [now destruct b | now rewrite IH]. Qed.

Lemma drop_app_exact (a b : string) : drop (String.length a) (a +:+ b) = b.
Proof. induction a as [|x a IH]; cbn; [reflexivity | exact IH]. Qed.

Lemma take_all (n : nat) (s : string) :
  (String.length s <= n)%nat -> take n s = s.
Proof.
  revert n; induction s as [|x s IH]; intros [|n] H; cbn in *;
    try reflexivity; try lia.
  rewrite IH; [reflexivity | lia].
Qed.

Lemma drop_all (n : nat) (s : string) :
  (String.length s <= n)%nat -> drop n s = EmptyString.
Proof.
  revert n; induction s as [|x s IH]; intros [|n] H; cbn in *;
    try reflexivity; try lia.
  apply IH; lia.
Qed.

Lemma take_length (n : nat) (s : string) :
  String.length (take n s) = Nat.min n (String.length s).
Proof.
  revert n; induction s as [|x s IH]; intros [|n]; cbn; try reflexivity.
  now rewrite IH.
Qed.

(** *** Searching *)

Lemma mem_app (c : ascii) (a b : string) :
  mem c (a +:+ b) = mem c a || mem c b.
Proof.
  induction a as [|x a IH]; cbn; [reflexivity|].
  rewrite IH. now rewrite orb_assoc.
Qed.

Lemma first_index_absent (c : ascii) (s : string) :
  mem c s = false -> first_index (Ascii.eqb c) s = None.
Proof.
  induction s as [|x s IH]; cbn; [reflexivity|].
  intros H. apply orb_false_iff in H as [Hx Hs].
  rewrite Hx, (IH Hs). reflexivity.
Qed.

Lemma first_index_present (c : ascii) (pre post : string) :
  mem c pre = false ->
  first_index (Ascii.eqb c) (pre +:+ String c post)
  = Some (String.length pre).
Proof.
  induction pre as [|x pre IH]; cbn.
  - intros _. now rewrite Ascii.eqb_refl.
  - intros H. apply orb_false_iff in H as [Hx Hs].
    rewrite Hx, (IH Hs). reflexivity.
Qed.

Lemma first_nonblank_none (s : string) :
  all_blank s = true ->
  first_index (fun a => negb (mem a blank_set)) s = None.
Proof.
  induction s as [|x s IH]; cbn -[mem]; [reflexivity|].
  intros H. apply andb_true_iff in H as [Hx Hs].
  unfold blank in Hx. rewrite Hx. cbn -[mem]. now rewrite (IH Hs).
Qed.

Lemma first_nonblank_some (s : string) :
  all_blank s = false ->
  exists i, first_index (fun a => negb (mem a blank_set)) s = Some i
            /\ (i < String.length s)%nat /\ drop i s = ltrim s.
Proof.
  induction s as [|x s IH]; cbn -[mem]; [discriminate|].
  unfold blank. destruct (mem x blank_set) eqn:Hx; cbn -[mem].
  - intros H. destruct (IH H) as (i & -> & Hi & Hd).
    exists (S i). cbn -[mem]. repeat split; [lia | exact Hd].
  - intros _. exists O. repeat split; lia.
Qed.

Lemma last_nonblank (s : string) :
  match last_index (fun a => negb (mem a blank_set)) s with
  | None => rtrim s = EmptyString
  | Some i => (i < String.length s)%nat /\ take (S i) s = rtrim s
  end.
Proof.
  induction s as [|x s IH]; cbn -[mem]; [reflexivity|].
  destruct (last_index _ s) as [i|].
  - destruct IH as [Hi Ht]. split; [lia|].
    rewrite <- Ht. destruct s; [cbn -[mem] in Hi; lia | reflexivity].
  - rewrite IH. unfold blank. destruct (mem x blank_set); cbn -[mem].
    + reflexivity.
    + split; [lia | reflexivity].
Qed.

(** *** The trims do what the specification says *)

Lemma ltrim_spec (s : string) :
  exists b, s = b +:+ ltrim s /\ all_blank b = true /\
            match ltrim s with
            | EmptyString => True
            | String c _ => blank c = false
            end.
Proof.
  induction s as [|x s (b & Hs & Hb & Hl)]; cbn -[mem].
  - now exists EmptyString.
  - destruct (blank x) eqn:Hx.
    + exists (String x b). cbn -[mem]. rewrite Hx, Hb. now rewrite <- Hs.
    + exists EmptyString. now rewrite Hx.
Qed.

Lemma rtrim_spec (s : string) :
  exists b, s = rtrim s +:+ b /\ all_blank b = true /\
            match back (rtrim s) with
            | None => rtrim s = EmptyString
            | Some c => blank c = false
            end.
Proof.
  induction s as [|x s (b & Hs & Hb & Hl)]; cbn -[mem].
  - now exists EmptyString.
  - destruct (rtrim s) as [|y t] eqn:Ht.
    + destruct (blank x) eqn:Hx.
      * exists (String x b). cbn -[mem] in *. rewrite Hx, Hb. now subst b.
      * exists b. cbn -[mem] in *. now subst b.
    + exists b. cbn -[mem] in *. split; [now f_equal|].
      split; [exact Hb|].
      destruct t; [exact Hl|].
      destruct (back _); [exact Hl | discriminate Hl].
Qed.

(** *** C strings *)

Lemma c_str_nul_free (s : string) : nul_free s = true -> c_str s = s.
Proof.
  unfold nul_free. induction s as [|x s IH]; cbn -[Ascii.eqb]; [reflexivity|].
  rewrite negb_true_iff, orb_false_iff. intros [Hx Hs].
  rewrite Ascii.eqb_sym, Hx. rewrite IH; [reflexivity|].
  now rewrite Hs.
Qed.

Lemma nul_free_c_str (s : string) : nul_free (c_str s) = true.
Proof.
  unfold nul_free. induction s as [|x s IH]; cbn -[Ascii.eqb]; [reflexivity|].
  destruct (Ascii.eqb x NUL) eqn:E; cbn -[Ascii.eqb]; [reflexivity|].
  rewrite Ascii.eqb_sym, E. exact IH.
Qed.

Lemma nul_free_app (a b : string) :
  nul_free (a +:+ b) = nul_free a && nul_free b.
Proof. unfold nul_free. rewrite mem_app. now rewrite negb_orb. Qed.

(** The C string is the prefix that stops before the first NUL. *)
Lemma c_str_prefix (s : string) :
  c_str s = s \/ exists rest, s = c_str s +:+ String NUL rest.
Proof.
  induction s as [|x s IH]; cbn -[Ascii.eqb]; [now left|].
  destruct (Ascii.eqb x NUL) eqn:E.
  - right. apply Ascii.eqb_eq in E as ->. now exists s.
  - destruct IH as [-> | (rest & H)]; [now left|].
    right. exists rest. cbn -[Ascii.eqb]. now rewrite <- H.
Qed.

Lemma take_strlen (s : string) : take (Z.to_nat (strlen s)) s = c_str s.
Proof.
  unfold strlen, size. rewrite Nat2Z.id.
  induction s as [|x s IH]; cbn -[Ascii.eqb]; [reflexivity|].
  destruct (Ascii.eqb x NUL); cbn -[Ascii.eqb]; [reflexivity | now rewrite IH].
Qed.

Lemma back_snoc (s : string) (c : ascii) :
  back (s +:+ String c EmptyString) = Some c.
Proof.
  induction s as [|x s IH]; cbn -[Ascii.eqb]; [reflexivity|].
  rewrite IH. now destruct s.
Qed.

End StringFacts.

(** ** [substr] and the searches of [std::string] *)

Section SubstrFacts.
Import SizeT CxxString CxxSubstr Spec.

Lemma cut_absent (c : ascii) (s : string) :
  cut c s = None <-> mem c s = false.
Proof.
  induction s as [|x s IH]; cbn -[Ascii.eqb]; [tauto|].
  rewrite (Ascii.eqb_sym c x).
  destruct (Ascii.eqb x c); cbn; [split; discriminate|].
  destruct (cut c s) as [[a b]|]; [|tauto].
  split; [discriminate|]. intros H. apply IH in H. discriminate.
Qed.

Lemma cut_present (c : ascii) (s before after : string) :
  cut c s = Some (before, after) <->
  s = before +:+ String c after /\ mem c before = false.
Proof.
  revert before; induction s as [|x s IH]; intros before;
    cbn -[Ascii.eqb].
  - split; [discriminate|]. intros [H _]. now destruct before.
  - destruct (Ascii.eqb x c) eqn:E.
    + apply Ascii.eqb_eq in E as ->. split.
      * intros [= <- <-]. now split.
      * intros [H Hm]. destruct before as [|y before]; cbn in H.
        -- now injection H as ->.
        -- injection H as <- _. cbn -[Ascii.eqb] in Hm.
           now rewrite Ascii.eqb_refl in Hm.
    + split.
      * destruct (cut c s) as [[a b]|]; [|discriminate].
        intros [= <- <-]. destruct (proj1 (IH a) eq_refl) as [-> Hm].
        split; [reflexivity|]. cbn -[Ascii.eqb].
        now rewrite Ascii.eqb_sym, E.
      * intros [H Hm]. destruct before as [|y before]; cbn in H.
        -- injection H as -> _. now rewrite Ascii.eqb_refl in E.
        -- injection H as <- ->. cbn -[Ascii.eqb] in Hm.
           apply orb_false_iff in Hm as [_ Hm].
           now rewrite (proj2 (IH before) (conj eq_refl Hm)).
  Qed.

Lemma find_absent (c : ascii) (s : string) :
  cut c s = None -> find s c = npos.
Proof.
  intros H. apply cut_absent in H. unfold find.
  now rewrite first_index_absent.
Qed.

Lemma find_present (c : ascii) (s before after : string) :
  cut c s = Some (before, after) -> find s c = size before.
Proof.
  intros H. apply cut_present in H as [-> Hm]. unfold find.
  now rewrite first_index_present.
Qed.

(** [substr(0, n)] keeps the first [n] characters and never throws. *)
Lemma substr_prefix (s : string) (n : Z) :
  0 <= n -> substr s 0 n = Returned (take (Z.to_nat n) s).
Proof.
  intros Hn. unfold substr.
  pose proof (size_nonneg s) as Hs.
  destruct (Z.ltb_spec (size s) 0) as [|_]; [lia|].
  change (drop (Z.to_nat 0) s) with s. f_equal.
  destruct (Z.le_gt_cases n (size s - 0)) as [H|H].
  - now rewrite Z.min_l.
  - rewrite Z.min_r by lia.
    rewrite !take_all; unfold size in *; [reflexivity | lia | lia].
Qed.

(** [substr(pos)] inside the string drops the first [pos] characters. *)
Lemma substr_suffix (s : string) (pos : Z) :
  0 <= pos <= size s -> size s <= npos ->
  substr_from s pos = Returned (drop (Z.to_nat pos) s).
Proof.
  intros Hp Hs. unfold substr_from, substr.
  destruct (Z.ltb_spec (size s) pos) as [|_]; [lia|].
  f_equal. rewrite Z.min_r by lia.
  apply take_all. unfold size in *.
  assert (String.length (drop (Z.to_nat pos) s)
          <= String.length s - Z.to_nat pos)%nat; [|lia].
  clear. generalize (Z.to_nat pos) as k.
  induction s as [|x s IH]; intros [|k]; cbn; try lia. apply IH.
Qed.

(** [substr(pos)] beyond the end throws. *)
Lemma substr_beyond (s : string) (pos : Z) :
  size s < pos -> substr_from s pos = Thrown out_of_range.
Proof.
  intros H. unfold substr_from, substr.
  now destruct (Z.ltb_spec (size s) pos) as [_|]; [|lia].
Qed.

(** The statement [content.substr(0, content.find_last_not_of(" \t") + 1)]
    is the right trim: when nothing but blanks is found, [npos + 1] wraps
    to zero and the result is empty. *)
Lemma rtrim_by_substr (s : string) :
  size s < npos ->
  substr s 0 (add (find_last_not_of s blank_set) 1) = Returned (rtrim s).
Proof.
  intros Hs. unfold find_last_not_of.
  pose proof (last_nonblank s) as H.
  destruct (last_index _ s) as [i|]; cbn [position].
  - destruct H as [Hi Ht]. unfold add.
    rewrite npos_value in Hs. unfold size in Hs.
    rewrite wrap_small by (unfold modulus, bits; lia).
    rewrite substr_prefix by lia.
    replace (Z.to_nat (Z.of_nat i + 1)) with (S i) by lia.
    now rewrite Ht.
  - rewrite wrap_npos_succ, substr_prefix by lia. now rewrite H.
Qed.

(** The statement [filename.substr(filename.find_first_not_of(" \t"))] is
    the left trim when some character is not a blank ... *)
Lemma ltrim_by_substr (s : string) :
  size s < npos -> all_blank s = false ->
  substr_from s (find_first_not_of s blank_set) = Returned (ltrim s).
Proof.
  intros Hs Hb. unfold find_first_not_of.
  destruct (first_nonblank_some s Hb) as (i & -> & Hi & Hd).
  cbn [position]. unfold size in Hs.
  rewrite substr_suffix by (unfold size; lia).
  now rewrite Nat2Z.id, Hd.
Qed.

(** ... and throws when the string is empty or all blanks: the search
    answers [npos], which lies beyond the end. *)
Lemma ltrim_by_substr_throws (s : string) :
  size s < npos -> all_blank s = true ->
  substr_from s (find_first_not_of s blank_set) = Thrown out_of_range.
Proof.
  intros Hs Hb. unfold find_first_not_of.
  rewrite (first_nonblank_none s Hb). cbn [position].
  now apply substr_beyond.
Qed.

(** Cutting a string with [find] and [substr] at a character it holds. *)
Lemma substr_before (c : ascii) (s before after : string) :
  cut c s = Some (before, after) ->
  substr s 0 (find s c) = Returned before.
Proof.
  intros H. rewrite (find_present _ _ _ _ H).
  apply cut_present in H as [-> _].
  rewrite substr_prefix by apply size_nonneg.
  unfold size. now rewrite Nat2Z.id, take_app_exact.
Qed.

Lemma substr_after (c : ascii) (s before after : string) :
  size s < npos ->
  cut c s = Some (before, after) ->
  substr_from s (add (find s c) 1) = Returned after.
Proof.
  intros Hs H. rewrite (find_present _ _ _ _ H).
  apply cut_present in H as [-> _].
  rewrite size_app, size_cons in Hs.
  pose proof (size_nonneg before). pose proof (size_nonneg after).
  rewrite npos_value in Hs. unfold add.
  rewrite wrap_small by (unfold modulus, bits; lia).
  rewrite substr_suffix
    by (rewrite ?size_app, ?size_cons, ?npos_value; lia).
  unfold size.
  replace (Z.to_nat (Z.of_nat (String.length before) + 1))
    with (String.length (before +:+ String c EmptyString)).
  - replace (before +:+ String c after)
      with ((before +:+ String c EmptyString) +:+ after)
      by now rewrite app_assoc_s.
    now rewrite drop_app_exact.
  - pose proof (size_app before (String c EmptyString)) as E.
    unfold size in E. cbn in E. lia.
Qed.

Lemma find_in_range (c : ascii) (s before after : string) :
  size s < npos ->
  cut c s = Some (before, after) -> (find s c =? npos) = false.
Proof.
  intros Hs H. rewrite (find_present _ _ _ _ H).
  apply cut_present in H as [-> _]. rewrite size_app in Hs.
  pose proof (size_nonneg (String c after)). apply Z.eqb_neq. lia.
Qed.

End SubstrFacts.

(** ** The monad *)

Section MonadFacts.

Context {A B : Type}.

Lemma bind_returned (m : M A) (k : A -> M B) (w w' : World) (a : A) :
  m w = (Returned a, w') -> (do x <- m; k x) w = k a w'.
Proof. intros H. unfold bind. now rewrite H. Qed.

End MonadFacts.

(** ** Output streams *)

Section StreamFacts.
Import SizeT CxxString Console Sys Spec.

(** Opening for writing either fails and leaves the world alone, or
    yields the stream of an empty file at that path. *)
Lemma ofstream_cases (path : string) (w : World) :
  ofstream path w = (Returned None, w) \/
  ofstream path w =
    (Returned (Some path),
     with_vfs (<[path := IFile EmptyString]> (vfs w)) w).
Proof.
  unfold ofstream.
  destruct (resolve w path) as [[d|names]|];
    destruct (negb (empty path) && may_write w path); auto.
Qed.

(** Writing to a freshly opened stream leaves exactly those bytes. *)
Lemma write_after_open (path bytes : string) (w : World) :
  ofstream_write path bytes
    (with_vfs (<[path := IFile EmptyString]> (vfs w)) w)
  = (Returned tt, with_vfs (<[path := IFile bytes]> (vfs w)) w).
Proof.
  unfold ofstream_write. cbn [vfs with_vfs].
  rewrite lookup_insert_eq, insert_insert_eq. reflexivity.
Qed.

Lemma printed_emit_all (msgs : list (level * string)) (w : World) :
  printed (emit_all msgs w) = (printed w ++ msgs)%list.
Proof.
  revert w; induction msgs as [|[lv text] msgs IH]; intros w; cbn.
  - now rewrite app_nil_r.
  - rewrite IH. cbn. now rewrite <- app_assoc.
Qed.

Lemma vfs_emit_all (msgs : list (level * string)) (w : World) :
  vfs (emit_all msgs w) = vfs w.
Proof.
  revert w; induction msgs as [|[lv text] msgs IH]; intros w; cbn;
    [reflexivity | now rewrite IH].
Qed.

Lemma emit_all_app (a b : list (level * string)) (w : World) :
  emit_all (a ++ b) w = emit_all b (emit_all a w).
Proof.
  revert w; induction a as [|[lv text] a IH]; intros w; cbn;
    [reflexivity | apply IH].
Qed.

End StreamFacts.

(** ** [echo] *)

Section Echo.
Import SizeT CxxString CxxSubstr Console Sys Spec commands.

(** Without [>] the argument is printed, as a C string, and nothing
    else happens. *)
Lemma echo_plain (args : string) (w : World) :
  cut ">" args = None ->
  echo args w = (Returned 0, emit true Info (c_str args) w).
Proof.
  intros H. unfold echo. now rewrite (find_absent _ _ H).
Qed.

(** With [>] and a target that is not blank, [echo] is: open the trimmed
    target, write the trimmed text. *)
Lemma echo_redirect (args before after : string) (w : World) :
  size args < npos ->
  cut ">" args = Some (before, after) ->
  all_blank after = false ->
  echo args w =
  (do file <- ofstream (c_str (ltrim after));
   match file with
   | None =>
       run emscripten_console_error "Failed to open file for writing";
       ret (-1)
   | Some file => run ofstream_write file (rtrim before); ret 0
   end) w.
Proof.
  intros Hs Hc Hb.
  pose proof (proj1 (cut_present _ _ _ _) Hc) as [E _].
  assert (size before < npos /\ size after < npos) as [Hsb Hsa].
  { subst args. rewrite size_app, size_cons in Hs.
    pose proof (size_nonneg before). pose proof (size_nonneg after). lia. }
  unfold echo. rewrite (find_in_range _ _ _ _ Hs Hc). cbn [negb].
  unfold bind at 1, lift at 1. rewrite (substr_before _ _ _ _ Hc).
  unfold bind at 1, lift at 1. rewrite (substr_after _ _ _ _ Hs Hc).
  unfold bind at 1, lift at 1. rewrite (rtrim_by_substr _ Hsb).
  unfold bind at 1, lift at 1. rewrite (ltrim_by_substr _ Hsa Hb).
  reflexivity.
Qed.

(** With [>] and an empty or blank target, the second [substr] throws
    before any file is touched or any message printed. *)
Lemma echo_blank_target (args before after : string) (w : World) :
  size args < npos ->
  cut ">" args = Some (before, after) ->
  all_blank after = true ->
  echo args w = (Thrown out_of_range, w).
Proof.
  intros Hs Hc Hb.
  pose proof (proj1 (cut_present _ _ _ _) Hc) as [E _].
  assert (size before < npos /\ size after < npos) as [Hsb Hsa].
  { subst args. rewrite size_app, size_cons in Hs.
    pose proof (size_nonneg before). pose proof (size_nonneg after). lia. }
  unfold echo. rewrite (find_in_range _ _ _ _ Hs Hc). cbn [negb].
  unfold bind at 1, lift at 1. rewrite (substr_before _ _ _ _ Hc).
  unfold bind at 1, lift at 1. rewrite (substr_after _ _ _ _ Hs Hc).
  unfold bind at 1, lift at 1. rewrite (rtrim_by_substr _ Hsb).
  unfold bind at 1, lift at 1. rewrite (ltrim_by_substr_throws _ Hsa Hb).
  reflexivity.
Qed.

End Echo.

Section EchoBehaviour.
Import SizeT CxxString CxxSubstr Console Sys Spec commands.

(** C4 (as amended).  For every argument string that fits [size_t]:
    without [>], [echo] prints the argument as a C string (up to its first
    NUL byte, hence the whole argument when it holds none), leaves every
    file alone and returns 0; with [>] and a target holding a character
    other than space and tab, the text before the first [>], right-trimmed,
    becomes the whole content of the file named by the text after it,
    left-trimmed (as a C string), with no newline added, and [echo] returns
    0 if the file opens and prints an error and returns -1 if it does
    not. *)
Theorem echo_behaviour (args : string) (w : World) :
  size args < npos ->
  match cut ">" args with
  | None =>
      echo args w = (Returned 0, emit true Info (c_str args) w)
      /\ vfs (snd (echo args w)) = vfs w
      /\ (nul_free args = true ->
          printed (snd (echo args w)) = (printed w ++ [(Info, args)])%list)
  | Some (before, after) =>
      all_blank after = false ->
      let content := rtrim before in
      let filename := c_str (ltrim after) in
      match fst (ofstream filename w) with
      | Returned (Some _) =>
          echo args w =
          (Returned 0,
           with_vfs (<[filename := IFile content]> (vfs w)) w)
      | _ =>
          echo args w =
          (Returned (-1),
           emit true Error "Failed to open file for writing" w)
      end
  end.
Proof.
  intros Hs. destruct (cut ">" args) as [[before after]|] eqn:Hc.
  - intros Hb content filename.
    rewrite (echo_redirect _ _ _ w Hs Hc Hb). fold filename content.
    destruct (ofstream_cases filename w) as [E | E];
      rewrite E, (bind_returned _ _ _ _ _ E); cbn [fst].
    + reflexivity.
    + now rewrite (bind_returned _ _ _ _ _ (write_after_open _ _ _)).
  - rewrite (echo_plain _ w Hc). repeat split.
    intros Hn. cbn. now rewrite (c_str_nul_free _ Hn).
Qed.

Lemma echo_behaviour_witness :
  echo "hi > /out.txt" Sample.world =
  (Returned 0,
   with_vfs (<["/out.txt" := IFile "hi"]> (vfs Sample.world)) Sample.world).
Proof.
  pose proof (echo_behaviour "hi > /out.txt" Sample.world) as H.
  cbv beta iota zeta in H. apply H; [reflexivity | reflexivity].
Defined.

(** C4 as stated fails on an argument with a NUL byte: the console takes a
    C string, so only the bytes before the NUL are printed. *)
Lemma echo_prints_c_string_only :
  cut ">" Sample.a_nul_b = None /\
  printed (snd (echo Sample.a_nul_b Sample.world)) = [(Info, "a")] /\
  printed (snd (echo Sample.a_nul_b Sample.world))
  <> [(Info, Sample.a_nul_b)].
Proof. repeat split. discriminate. Qed.

(** C1: the raw line [echo hi >] reaches [echo] with a target that is
    empty; [filename.substr(npos)] throws [std::out_of_range], and nothing
    between the handler and the exported [execute] catches it. *)
Theorem dispatch_echo_blank_target_throws (w : World) :
  echo "hi >" w = (Thrown out_of_range, w)
  /\ execute_command "echo hi >" w = (Thrown out_of_range, w)
  /\ kernel.execute (Some "echo hi >") w = (Thrown out_of_range, w).
Proof. repeat split. Qed.

End EchoBehaviour.

(** ** The dispatcher *)

Section Dispatch.
Import SizeT CxxString CxxSubstr Console Sys Spec commands.

(** The registry holds exactly the four built-in names. *)
Lemma registry_lookup (name : string) :
  command_registry !! name = registered name.
Proof.
  change command_registry
    with (<["ls" := ls]> (<["cat" := cat]> (<["echo" := echo]>
           (<["rm" := rm]> (∅ : gmap string CommandFunction))))).
  unfold registered. rewrite !lookup_insert, lookup_empty.
  destruct (String.eqb_spec name "ls") as [->|N1];
    [now rewrite decide_True | rewrite decide_False by congruence].
  destruct (String.eqb_spec name "cat") as [->|N2];
    [now rewrite decide_True | rewrite decide_False by congruence].
  destruct (String.eqb_spec name "echo") as [->|N3];
    [now rewrite decide_True | rewrite decide_False by congruence].
  destruct (String.eqb_spec name "rm") as [->|N4];
    [now rewrite decide_True | now rewrite decide_False by congruence].
Qed.

Lemma registered_names (name : string) :
  is_Some (registered name) <-> In name ["ls"; "cat"; "echo"; "rm"].
Proof.
  unfold registered. cbn [In].
  destruct (String.eqb_spec name "ls"); [subst; split; eauto|].
  destruct (String.eqb_spec name "cat"); [subst; split; eauto|].
  destruct (String.eqb_spec name "echo"); [subst; split; eauto|].
  destruct (String.eqb_spec name "rm"); [subst; split; eauto 6|].
  split; [intros [? [=]] | intuition congruence].
Qed.

(** The name is the prefix before the first space, the argument all that
    follows that space; only the space character separates. *)
Lemma split_line_spec (line : string) :
  let (name, argument) := split_line line in
  mem " " name = false /\
  (line = name +:+ String " " argument
   \/ (line = name /\ argument = EmptyString)).
Proof.
  unfold split_line.
  destruct (cut " " line) as [[name argument]|] eqn:Hc.
  - apply cut_present in Hc as [-> Hm]. auto.
  - apply cut_absent in Hc. auto.
Qed.

(** The two [substr] calls of [execute_command] compute [split_line] and
    the look-up is the exact match. *)
Lemma execute_command_unfold (command : string) (w : World) :
  size command < npos ->
  execute_command command w =
  match registered (fst (split_line command)) with
  | Some handler => handler (snd (split_line command)) w
  | None =>
      (Returned (-1), emit true Error "Unknown command" w)
  end.
Proof.
  intros Hs. unfold execute_command, split_line.
  destruct (cut " " command) as [[name argument]|] eqn:Hc.
  - rewrite (find_in_range _ _ _ _ Hs Hc). cbn [negb fst snd].
    unfold bind at 1, lift at 1. rewrite (substr_before _ _ _ _ Hc).
    unfold bind at 1, lift at 1. rewrite (substr_after _ _ _ _ Hs Hc).
    rewrite registry_lookup. now destruct (registered name).
  - rewrite (find_absent _ _ Hc). cbn [fst snd].
    change (negb (npos =? npos)) with false. cbv beta iota.
    unfold bind at 1, ret at 1. unfold bind at 1, ret at 1.
    rewrite registry_lookup. now destruct (registered command).
Qed.

(** C3.  A raw line that fits [size_t] is split at its first space into
    name and argument (the whole line and the empty string when it has no
    space); the name is matched exactly against [ls], [cat], [echo] and
    [rm]; a registered name runs its handler on the argument and yields
    what the handler yields, any other name prints the error
    [Unknown command], returns -1 and leaves the file system as it was. *)
Theorem dispatch_behaviour (line : string) (w : World) :
  size line < npos ->
  let (name, argument) := split_line line in
  (mem " " name = false
   /\ (line = name +:+ String " " argument
       \/ (line = name /\ argument = EmptyString)))
  /\ (name = "ls" -> execute_command line w = ls argument w)
  /\ (name = "cat" -> execute_command line w = cat argument w)
  /\ (name = "echo" -> execute_command line w = echo argument w)
  /\ (name = "rm" -> execute_command line w = rm argument w)
  /\ (~ In name ["ls"; "cat"; "echo"; "rm"] ->
      execute_command line w
      = (Returned (-1), emit true Error "Unknown command" w)
      /\ fst (execute_command line w) = Returned (-1)
      /\ vfs (snd (execute_command line w)) = vfs w).
Proof.
  intros Hs. rewrite (execute_command_unfold _ w Hs).
  pose proof (split_line_spec line) as Hsplit.
  destruct (split_line line) as [name argument]. cbn [fst snd].
  split; [exact Hsplit|].
  repeat split; try (intros ->; reflexivity).
  all: destruct (registered name) eqn:E; try reflexivity; exfalso;
    match goal with
    | Hn : ~ In _ _ |- _ => apply Hn, registered_names; rewrite E; eauto
    end.
Qed.

Lemma dispatch_behaviour_witness :
  execute_command "cat /a.txt" Sample.world = cat "/a.txt" Sample.world
  /\ execute_command "ls" Sample.world = ls "" Sample.world
  /\ fst (execute_command "dir /" Sample.world) = Returned (-1).
Proof.
  refine (conj _ (conj _ _)).
  - apply (dispatch_behaviour "cat /a.txt" Sample.world); reflexivity.
  - apply (dispatch_behaviour "ls" Sample.world); reflexivity.
  - apply (dispatch_behaviour "dir /" Sample.world); [reflexivity|].
    cbn. intuition discriminate.
Defined.

(** A tab does not separate: the whole of [ls<TAB>/] is taken as the
    name, and no such command is registered. *)
Example tab_is_not_a_separator :
  split_line (String "l" (String "s" (String "009" "/")))
  = (String "l" (String "s" (String "009" "/")), EmptyString)
  /\ fst (execute_command (String "l" (String "s" (String "009" "/")))
                          Sample.world) = Returned (-1).
Proof. split; reflexivity. Qed.

(** A prefix of a registered name is not that name. *)
Example no_partial_match :
  registered "ech" = None /\ registered "echoo" = None
  /\ registered "LS" = None.
Proof. repeat split. Qed.

End Dispatch.

(** ** Blocks of memory *)

Section BufferFacts.
Import SizeT CxxString Sys Spec.

Lemma length_fill (n : Z) (c : ascii) :
  String.length (fill n c) = Z.to_nat n.
Proof.
  unfold fill. induction (Z.to_nat n) as [|k IH]; cbn;
    [reflexivity | now rewrite IH].
Qed.

Lemma size_fill (n : Z) (c : ascii) : 0 <= n -> size (fill n c) = n.
Proof. intros H. unfold size. rewrite length_fill. lia. Qed.

Lemma length_app_s (a b : string) :
  String.length (a +:+ b) = (String.length a + String.length b)%nat.
Proof. pose proof (size_app a b) as H. unfold size in H. lia. Qed.

(** A block from [malloc] has the size that was asked for. *)
Lemma length_block (n : Z) (stale : string) :
  String.length (take (Z.to_nat n) (stale +:+ fill n NUL)) = Z.to_nat n.
Proof. rewrite take_length, length_app_s, length_fill. lia. Qed.

Lemma overwrite_exact (buf src : string) :
  String.length buf = String.length src -> overwrite buf src = src.
Proof.
  intros H. unfold overwrite.
  rewrite drop_all by lia. apply app_empty_r.
Qed.

Lemma length_drop (k : nat) (s : string) :
  String.length (drop k s) = (String.length s - k)%nat.
Proof.
  revert k; induction s as [|x s IH]; intros [|k]; cbn; try reflexivity.
  apply IH.
Qed.

Lemma drop_app_plus (k : nat) (a b : string) :
  drop (String.length a + k) (a +:+ b) = drop k b.
Proof. induction a as [|x a IH]; cbn; [reflexivity | exact IH]. Qed.

Lemma length_overwrite (buf src : string) :
  (String.length src <= String.length buf)%nat ->
  String.length (overwrite buf src) = String.length buf.
Proof.
  intros H. unfold overwrite. rewrite length_app_s, length_drop. lia.
Qed.

(** Overwriting the start of a block that is one byte longer and then
    storing a NUL in that last byte leaves the bytes, NUL-terminated. *)
Lemma store_terminator (buf src : string) :
  String.length buf = S (String.length src) ->
  store (overwrite buf src) (size src) NUL
  = Returned (src +:+ String NUL EmptyString).
Proof.
  intros H. unfold store, size.
  rewrite length_overwrite by lia. rewrite H.
  destruct (Z.leb_spec 0 (Z.of_nat (String.length src))); [|lia].
  destruct (Z.ltb_spec (Z.of_nat (String.length src))
                       (Z.of_nat (S (String.length src)))); [|lia].
  cbn [andb]. rewrite Nat2Z.id. unfold overwrite.
  rewrite take_app_exact.
  replace (S (String.length src)) with (String.length src + 1)%nat by lia.
  rewrite drop_app_plus, drop_all; [reflexivity|].
  rewrite length_drop. lia.
Qed.

End BufferFacts.

(** ** [cat] *)

Section Cat.
Import SizeT CxxString CxxSubstr Console Sys Spec commands.

(** Reading a whole file from its start into a block that can hold it. *)
Lemma read_whole (path d buf : string) (w : World) :
  (String.length d <= String.length buf)%nat ->
  read (seekg (mkIfstream path d (size d)) 0) buf (size d) w =
  (Returned (if io_fault w path then None else Some (overwrite buf d)), w).
Proof.
  intros Hl. unfold read, seekg. cbn [in_path in_data in_pos].
  destruct (Z.ltb_spec (size buf) (size d)) as [H|_];
    [unfold size in H; lia|].
  rewrite Z.add_0_l, Z.ltb_irrefl, orb_false_r.
  destruct (io_fault w path); [reflexivity|].
  change (drop (Z.to_nat 0) d) with d.
  unfold size. now rewrite Nat2Z.id, take_all by lia.
Qed.

(** [cat], case by case. *)
Lemma cat_unfold (args : string) (w : World) :
  (forall d, resolve w (c_str args) = Some (IFile d) -> size d < modulus) ->
  cat args w =
  if empty args
  then (Returned (-1), emit true Error "Usage: cat <filename>" w)
  else match resolve w (c_str args) with
       | Some (IFile d) =>
           if io_fault w (c_str args)
           then (Returned (-1), emit true Error "Failed to read file" w)
           else (Returned 0, emit true Info (c_str d) w)
       | _ => (Returned (-1), emit true Error "Failed to open file" w)
       end.
Proof.
  intros Hfit. unfold cat. destruct (empty args); [reflexivity|].
  unfold bind at 1, ifstream_ate.
  destruct (resolve w (c_str args)) as [[d|names]|]; try reflexivity.
  specialize (Hfit d eq_refl). pose proof (size_nonneg d) as Hd.
  cbn [tellg in_pos]. rewrite (wrap_small (size d)) by lia.
  unfold bind at 1.
  assert (String.length (fill (size d) NUL) = String.length d) as Hl
    by (rewrite length_fill; unfold size; lia).
  rewrite read_whole, overwrite_exact by lia.
  now destruct (io_fault w (c_str args)).
Qed.

(** The buffer [std::string content(size, NUL)] that [cat] reads into has
    the byte length of the file, as [tellg] reports it after the stream
    was opened at its end. *)
Lemma cat_buffer_size (path d : string) (w : World) :
  resolve w path = Some (IFile d) -> size d < modulus ->
  exists file,
    ifstream_ate path w = (Returned (Some file), w)
    /\ tellg file = size d
    /\ size (fill (wrap (tellg file)) NUL) = size d.
Proof.
  intros Hr Hfit. unfold ifstream_ate. rewrite Hr.
  eexists; split; [reflexivity|]. cbn [tellg in_pos].
  pose proof (size_nonneg d). rewrite wrap_small by lia.
  split; [reflexivity | now apply size_fill].
Qed.

(** The status of [cat] on every path and its whole effect on the
    successful one. *)
Lemma cat_status_and_success (args : string) (w : World) :
  (forall d, resolve w (c_str args) = Some (IFile d) -> size d < modulus) ->
  let cannot_open :=
    forall d, resolve w (c_str args) <> Some (IFile d) in
  let read_fails :=
    (exists d, resolve w (c_str args) = Some (IFile d))
    /\ io_fault w (c_str args) = true in
  ((exists status, fst (cat args w) = Returned status /\ status < 0)
   <-> args = EmptyString \/ cannot_open \/ read_fails)
  /\ (forall d,
        args <> EmptyString ->
        resolve w (c_str args) = Some (IFile d) ->
        io_fault w (c_str args) = false ->
        size (fill (wrap (size d)) NUL) = size d
        /\ cat args w = (Returned 0, emit true Info (c_str d) w)
        /\ (nul_free d = true ->
            cat args w = (Returned 0, emit true Info d w))).
Proof.
  intros Hfit cannot_open read_fails.
  rewrite (cat_unfold _ w Hfit). subst cannot_open read_fails. split.
  - destruct args as [|a args]; cbn [empty].
    { split; [auto|]. intros _. exists (-1). split; [reflexivity | lia]. }
    set (path := c_str (String a args)) in *.
    destruct (resolve w path) as [[d|names]|] eqn:Hr.
    + destruct (io_fault w path) eqn:Hio; cbn [fst]; split.
      * intros _. right. right. split; [now exists d | reflexivity].
      * intros _. exists (-1). split; [reflexivity | lia].
      * intros (status & [= <-] & Hneg). lia.
      * intros [H | [H | [_ H]]]; [discriminate H | | discriminate H].
        now destruct (H d).
    + cbn [fst]. split.
      * intros _. right. left. intros d. discriminate.
      * intros _. exists (-1). split; [reflexivity | lia].
    + cbn [fst]. split.
      * intros _. right. left. intros d. discriminate.
      * intros _. exists (-1). split; [reflexivity | lia].
  - intros d Hne Hr Hio. rewrite Hr, Hio.
    destruct args as [|a args]; [now destruct Hne|]. cbn [empty].
    pose proof (size_nonneg d). specialize (Hfit d Hr).
    rewrite wrap_small by lia.
    split; [now apply size_fill|]. split; [reflexivity|].
    intros Hn. now rewrite (c_str_nul_free _ Hn).
Qed.

(** The one [read] of [cat]: from the start of the stream, of [tellg]
    bytes, into a string of [tellg] NUL bytes; without a fault it leaves
    the whole file in that string. *)
Lemma cat_reads_into_exact_buffer (args d : string) (w : World) :
  size d < modulus ->
  args <> EmptyString ->
  resolve w (c_str args) = Some (IFile d) ->
  exists file,
    ifstream_ate (c_str args) w = (Returned (Some file), w)
    /\ tellg file = size d
    /\ size (fill (wrap (tellg file)) NUL) = size d
    /\ cat args w =
       (do r <- read (seekg file 0) (fill (wrap (tellg file)) NUL)
                     (tellg file);
        match r with
        | None =>
            run emscripten_console_error "Failed to read file"; ret (-1)
        | Some content =>
            run emscripten_console_log (c_str content); ret 0
        end) w
    /\ (io_fault w (c_str args) = false ->
        read (seekg file 0) (fill (wrap (tellg file)) NUL) (tellg file) w
        = (Returned (Some d), w)).
Proof.
  intros Hfit Hne Hr. pose proof (size_nonneg d) as Hd.
  exists (mkIfstream (c_str args) d (size d)).
  assert (String.length (fill (size d) NUL) = String.length d) as Hl
    by (rewrite length_fill; unfold size; lia).
  refine (conj _ (conj eq_refl (conj _ (conj _ _)))).
  - unfold ifstream_ate. now rewrite Hr.
  - cbn [tellg in_pos]. rewrite wrap_small by lia. now apply size_fill.
  - unfold cat. destruct args as [|a args]; [now destruct Hne|].
    cbn [empty]. unfold bind at 1, ifstream_ate. now rewrite Hr.
  - intros Hio. cbn [tellg in_pos]. rewrite wrap_small by lia.
    rewrite read_whole, Hio, overwrite_exact by lia. reflexivity.
Qed.

(** C5 (as amended).  [cat] returns a negative value exactly when the
    argument is empty, the file cannot be opened, or the read of the full
    length does not succeed, and it then prints one error message: the
    usage message for the empty argument, [Failed to open file] or
    [Failed to read file].  Otherwise it reads the whole file, from the
    start and of the length [tellg] reported at the end, into a buffer of
    exactly the file's byte length, prints as one message the content up
    to its first NUL byte (the full content when it holds no NUL byte)
    and returns 0. *)
Theorem cat_behaviour (args : string) (w : World) :
  (forall d, resolve w (c_str args) = Some (IFile d) -> size d < modulus) ->
  let cannot_open :=
    forall d, resolve w (c_str args) <> Some (IFile d) in
  let read_fails :=
    (exists d, resolve w (c_str args) = Some (IFile d))
    /\ io_fault w (c_str args) = true in
  ((exists status, fst (cat args w) = Returned status /\ status < 0)
   <-> args = EmptyString \/ cannot_open \/ read_fails)
  /\ (forall d,
        args <> EmptyString ->
        resolve w (c_str args) = Some (IFile d) ->
        io_fault w (c_str args) = false ->
        size (fill (wrap (size d)) NUL) = size d
        /\ cat args w = (Returned 0, emit true Info (c_str d) w)
        /\ (nul_free d = true ->
            cat args w = (Returned 0, emit true Info d w)))
  /\ (args = EmptyString ->
      cat args w
      = (Returned (-1), emit true Error "Usage: cat <filename>" w))
  /\ (args <> EmptyString -> cannot_open ->
      cat args w = (Returned (-1), emit true Error "Failed to open file" w))
  /\ (args <> EmptyString -> read_fails ->
      cat args w = (Returned (-1), emit true Error "Failed to read file" w))
  /\ (forall d,
        args <> EmptyString ->
        resolve w (c_str args) = Some (IFile d) ->
        exists file,
          ifstream_ate (c_str args) w = (Returned (Some file), w)
          /\ tellg file = size d
          /\ size (fill (wrap (tellg file)) NUL) = size d
          /\ cat args w =
             (do r <- read (seekg file 0) (fill (wrap (tellg file)) NUL)
                           (tellg file);
              match r with
              | None =>
                  run emscripten_console_error "Failed to read file";
                  ret (-1)
              | Some content =>
                  run emscripten_console_log (c_str content); ret 0
              end) w
          /\ (io_fault w (c_str args) = false ->
              read (seekg file 0) (fill (wrap (tellg file)) NUL)
                   (tellg file) w
              = (Returned (Some d), w))).
Proof.
  intros Hfit cannot_open read_fails.
  destruct (cat_status_and_success args w Hfit) as [Hiff Hok].
  refine (conj Hiff (conj Hok (conj _ (conj _ (conj _ _))))).
  - intros ->. reflexivity.
  - intros Hne Hno. rewrite (cat_unfold _ w Hfit).
    destruct args as [|a args]; [now destruct Hne|]. cbn [empty].
    destruct (resolve w (c_str (String a args))) as [[d|names]|] eqn:Hr;
      [now destruct (Hno d) | reflexivity | reflexivity].
  - intros Hne [[d Hr] Hio]. rewrite (cat_unfold _ w Hfit).
    destruct args as [|a args]; [now destruct Hne|]. cbn [empty].
    now rewrite Hr, Hio.
  - intros d Hne Hr.
    exact (cat_reads_into_exact_buffer args d w (Hfit d Hr) Hne Hr).
Qed.

Lemma cat_behaviour_witness :
  cat "/a.txt" Sample.world
  = (Returned 0, emit true Info "hello" Sample.world).
Proof.
  assert (forall d, resolve Sample.world (c_str "/a.txt") = Some (IFile d)
                    -> size d < modulus) as Hfit.
  { intros d H. vm_compute in H. injection H as <-. reflexivity. }
  apply (proj1 (proj2 (cat_behaviour "/a.txt" Sample.world Hfit)) "hello");
    [discriminate | reflexivity | reflexivity | reflexivity].
Defined.

(** C5 as stated fails on a file with a NUL byte: the file holds the three
    bytes [a], NUL, [b]; [cat] returns 0 and the message is [a]. *)
Lemma cat_prints_c_string_only :
  resolve Sample.world "/blob" = Some (IFile Sample.a_nul_b) /\
  fst (cat "/blob" Sample.world) = Returned 0 /\
  printed (snd (cat "/blob" Sample.world)) = [(Info, "a")] /\
  printed (snd (cat "/blob" Sample.world)) <> [(Info, Sample.a_nul_b)].
Proof. repeat split. discriminate. Qed.

End Cat.

(** ** [ls] *)

Section Ls.
Import SizeT CxxString CxxSubstr Console Sys Spec commands.

Lemma ends_in_slash_spec (dir : string) :
  ends_in_slash dir = true <-> exists p, dir = p +:+ "/".
Proof.
  unfold ends_in_slash. split.
  - induction dir as [|x dir IH]; cbn -[Ascii.eqb]; [discriminate|].
    destruct dir as [|y dir].
    + destruct (Ascii.eqb_spec x "/"%char) as [->|N].
      * intros _. now exists EmptyString.
      * intros H. exfalso. apply N.
        destruct x as [[] [] [] [] [] [] [] []]; try discriminate H.
        reflexivity.
    + intros H. destruct (IH H) as [p ->]. now exists (String x p).
  - intros [p ->]. now rewrite back_snoc.
Qed.

Lemma stat_query (path : string) (w : World) :
  stat path w = (Returned (query w path), w).
Proof. unfold stat, query. now destruct (resolve w path) as [[]|]. Qed.

Lemma nul_free_joined (dir name : string) :
  nul_free dir = true -> nul_free name = true ->
  nul_free (joined dir name) = true.
Proof.
  intros Hd Hn. unfold joined.
  destruct (ends_in_slash dir); rewrite ?nul_free_app, Hd, Hn; reflexivity.
Qed.

(** The loop of [ls] runs only on a path that is not empty, so that
    [full_path.back()] is defined. *)
Lemma opendir_nonempty (path : string) (entries : list string) (w : World) :
  fst (opendir path w) = Returned (Some entries) -> back path <> None.
Proof.
  unfold opendir, resolve. destruct path as [|c path]; [discriminate|].
  intros _. clear. revert c.
  induction path as [|x path IH]; intros c; [discriminate | apply (IH x)].
Qed.

(** One turn of the loop prints one line. *)
Lemma ls_entry_line (path d_name : string) (w : World) :
  nul_free path = true -> nul_free d_name = true ->
  ls_entry path d_name w =
  (Returned tt,
   emit true Info (entry_line (query w (joined path d_name)) d_name) w).
Proof.
  intros Hp Hn. unfold ls_entry.
  assert ((match back path with
           | Some "/"%char => path
           | _ => path +:+ "/"
           end) +:+ d_name = joined path d_name) as ->.
  { unfold joined, ends_in_slash.
    destruct (back path) as [[[] [] [] [] [] [] [] []]|];
      try reflexivity; now rewrite app_assoc_s. }
  rewrite (c_str_nul_free _ (nul_free_joined _ _ Hp Hn)).
  rewrite (bind_returned _ _ _ _ _ (stat_query _ _)).
  destruct (query w (joined path d_name)) as [[]|]; cbn [entry_line].
  - rewrite c_str_nul_free; [reflexivity|].
    now rewrite !nul_free_app, Hn.
  - rewrite c_str_nul_free; [reflexivity|].
    now rewrite !nul_free_app, Hn.
  - reflexivity.
Qed.

(** The whole loop prints one line an entry, in iteration order. *)
Lemma readdir_loop_lines (path : string) (entries : list string)
    (w0 w : World) :
  nul_free path = true ->
  Forall (fun e => nul_free e = true) entries ->
  vfs w = vfs w0 ->
  readdir_loop (ls_entry path) entries w =
  (Returned tt,
   emit_all
     (List.map (fun e => (Info, entry_line (query w0 (joined path e)) e))
               entries) w).
Proof.
  intros Hp He. revert w.
  induction He as [|e entries Hn He IH]; intros w Hv; [reflexivity|].
  cbn [readdir_loop List.map emit_all].
  rewrite (bind_returned _ _ _ _ _ (ls_entry_line _ _ _ Hp Hn)).
  assert (query w (joined path e) = query w0 (joined path e)) as ->
    by (unfold query, resolve; now rewrite Hv).
  now apply IH.
Qed.

Lemma readdir_names_nul_free (names : list string) :
  Forall (fun e => nul_free e = true) (List.map c_str names).
Proof.
  induction names as [|n names IH]; cbn [List.map]; constructor;
    [apply nul_free_c_str | exact IH].
Qed.

(** [ls] up to its loop. *)
Lemma ls_unfold (args : string) (w : World) :
  ls args w =
  let path := if empty args then "/" else c_str args in
  let w3 :=
    emit_all [(Info, "ls command executing"); (Info, "Listing directory:");
              (Info, path)] w in
  match resolve w path with
  | Some (IDir names) =>
      (run readdir_loop (ls_entry path) (List.map c_str names); ret 0) w3
  | _ =>
      (Returned (-1),
       emit_all [(Error, "Failed to open directory: "); (Error, path)] w3)
  end.
Proof.
  unfold ls. set (path := if empty args then "/" else c_str args).
  cbv zeta.
  unfold bind at 1, emscripten_console_log at 1.
  unfold bind at 1, emscripten_console_log at 1.
  unfold bind at 1, emscripten_console_log at 1.
  unfold bind at 1, opendir at 1.
  change (resolve (emit true Info path
            (emit true Info "Listing directory:"
              (emit true Info "ls command executing" w))) path)
    with (resolve w path).
  now destruct (resolve w path) as [[d|names]|].
Qed.

(** C6.  [ls] lists the root ["/"] when its argument is empty (and the
    argument, as a C string, otherwise).  It returns -1 exactly when that
    path cannot be opened as a directory, and 0 otherwise, whatever the
    type queries answer.  After its three heading messages it prints,
    for every entry the directory iteration yields, none left out, one
    line: [d <name>] when the query on the joined path says directory,
    [- <name>] when it says anything else, the bare name when the query
    fails; the joined path gets a [/] between directory and name unless
    the directory already ends in one. *)
Theorem ls_behaviour (args : string) (w : World) :
  let path := if empty args then "/" else c_str args in
  let heading :=
    [(Info, "ls command executing"); (Info, "Listing directory:");
     (Info, path)] in
  (args = EmptyString -> path = "/")
  /\ (fst (ls args w) = Returned (-1)
      <-> fst (opendir path w) = Returned None)
  /\ (fst (ls args w) = Returned 0
      <-> fst (opendir path w) <> Returned None)
  /\ match fst (opendir path w) with
     | Returned (Some entries) =>
         ls args w =
         (Returned 0,
          emit_all
            (heading ++
             List.map
               (fun e => (Info, entry_line (query w (joined path e)) e))
               entries) w)
     | _ =>
         ls args w =
         (Returned (-1),
          emit_all
            (heading ++
             [(Error, "Failed to open directory: "); (Error, path)]) w)
     end.
Proof.
  intros path heading.
  assert (nul_free path = true) as Hp.
  { subst path. destruct (empty args); [reflexivity | apply nul_free_c_str]. }
  assert (match fst (opendir path w) with
     | Returned (Some entries) =>
         ls args w =
         (Returned 0,
          emit_all
            (heading ++
             List.map
               (fun e => (Info, entry_line (query w (joined path e)) e))
               entries) w)
     | _ =>
         ls args w =
         (Returned (-1),
          emit_all
            (heading ++
             [(Error, "Failed to open directory: "); (Error, path)]) w)
     end) as Hmain.
  { unfold opendir. cbn [fst]. rewrite (ls_unfold args w). cbv zeta.
    fold path.
    destruct (resolve w path) as [[d|names]|]; try reflexivity.
    rewrite emit_all_app. unfold bind at 1.
    rewrite (readdir_loop_lines path (List.map c_str names) w _ Hp
               (readdir_names_nul_free names)); [reflexivity|].
    apply vfs_emit_all. }
  split; [intros ->; reflexivity|].
  destruct (fst (opendir path w)) as [[entries|]| |] eqn:Ho;
    rewrite Hmain; cbn [fst]; repeat split;
    try discriminate; try congruence.
  all: unfold opendir in Ho; cbn [fst] in Ho; discriminate Ho.
Qed.

Lemma ls_behaviour_witness :
  fst (ls "" Sample.world) = Returned 0
  /\ fst (ls "/a.txt" Sample.world) = Returned (-1).
Proof.
  refine (conj _ _).
  - apply (proj1 (proj2 (proj2 (ls_behaviour "" Sample.world)))).
    discriminate.
  - apply (proj1 (proj2 (ls_behaviour "/a.txt" Sample.world))).
    reflexivity.
Defined.

Example ls_root :
  fst (ls "" Sample.world) = Returned 0 /\
  printed (snd (ls "" Sample.world)) =
  [(Info, "ls command executing"); (Info, "Listing directory:");
   (Info, "/"); (Info, "."); (Info, ".."); (Info, "- a.txt");
   (Info, "- blob"); (Info, "- empty"); (Info, "d docs")].
Proof. split; reflexivity. Qed.

Example ls_missing :
  fst (ls "/nowhere" Sample.world) = Returned (-1).
Proof. reflexivity. Qed.

End Ls.

(** ** Boundary functions: [init] *)

Section Init.
Import Console Spec kernel.

(** C7.  [init] returns 1, the number of [RUNNING] in the declaration
    order [BOOTING = 0], [RUNNING = 1], [PANIC = 2], [SHUTDOWN = 3], in
    every world, hence on every call, however many came before. *)
Theorem init_returns_running (n : nat) (w : World) :
  fst (init (after_inits n w)) = Returned 1
  /\ KernelState_to_int RUNNING = 1
  /\ List.map KernelState_to_int [BOOTING; RUNNING; PANIC; SHUTDOWN]
     = [0; 1; 2; 3].
Proof. repeat split. Qed.

(** Each call installs one more console wrapper: after [n] calls a
    message printed once reaches the sink [n] times. *)
Lemma init_stacks_wrappers (n : nat) (w : World) :
  shims (after_inits n w) = (n + shims w)%nat.
Proof.
  induction n as [|n IH]; [reflexivity|].
  cbn [after_inits]. unfold init, bind, init_console_handlers,
    emscripten_console_log, emscripten_console_warn, ret.
  cbn. now rewrite IH.
Qed.

End Init.

(** ** Boundary functions: [read_file] and [write_file] *)

Section Files.
Import SizeT CxxString CxxSubstr Console Sys Spec kernel.

(** [read_file], case by case, for files that fit [size_t]. *)
Lemma read_file_unfold (path : string) (w : World) :
  (forall d, resolve w path = Some (IFile d) -> size d < npos) ->
  read_file path w =
  match resolve w path with
  | Some (IFile d) =>
      match heap w (size d + 1) with
      | None =>
          (Returned None, emit true Error "Failed to allocate memory" w)
      | Some _ =>
          if io_fault w path
          then (Returned None, emit true Error "Failed to read file" w)
          else (Returned (Some (d +:+ String NUL EmptyString)), w)
      end
  | _ =>
      (Returned None, emit true Error "Failed to open file for reading" w)
  end.
Proof.
  intros Hfit. unfold read_file, try_catch.
  unfold bind at 1, ifstream_ate.
  destruct (resolve w path) as [[d|names]|]; try reflexivity.
  specialize (Hfit d eq_refl). pose proof (size_nonneg d) as Hd.
  rewrite npos_value in Hfit.
  cbn [tellg in_pos]. unfold add.
  rewrite (wrap_small (size d)) by (unfold modulus, bits; lia).
  rewrite (wrap_small (size d + 1)) by (unfold modulus, bits; lia).
  unfold bind at 1, malloc.
  destruct (heap w (size d + 1)) as [stale|]; [|reflexivity].
  pose proof (length_block (size d + 1) stale) as Hl.
  unfold bind at 1. rewrite read_whole by (unfold size in *; lia).
  destruct (io_fault w path); [reflexivity|].
  unfold bind at 1, lift at 1.
  rewrite store_terminator by (unfold size in *; lia).
  reflexivity.
Qed.

(** C10.  On an existing file of zero bytes [read_file] does not answer
    null for want of content: it returns a block holding the single
    terminating NUL, unless the one-byte allocation or the read fails.
    For every file that fits [size_t], null is returned exactly on open
    failure, allocation failure or read failure. *)
Theorem read_file_null_cases (path : string) (w : World) :
  (forall d, resolve w path = Some (IFile d) -> size d < npos) ->
  let open_fails := forall d, resolve w path <> Some (IFile d) in
  let alloc_fails :=
    exists d, resolve w path = Some (IFile d)
              /\ heap w (size d + 1) = None in
  let read_fails :=
    (exists d, resolve w path = Some (IFile d))
    /\ io_fault w path = true in
  (fst (read_file path w) = Returned None
   <-> open_fails \/ alloc_fails \/ read_fails)
  /\ (resolve w path = Some (IFile EmptyString) ->
      heap w 1 <> None -> io_fault w path = false ->
      read_file path w = (Returned (Some (String NUL EmptyString)), w)).
Proof.
  intros Hfit open_fails alloc_fails read_fails.
  rewrite (read_file_unfold _ w Hfit).
  subst open_fails alloc_fails read_fails. split.
  - destruct (resolve w path) as [[d|names]|] eqn:Hr.
    + destruct (heap w (size d + 1)) as [stale|] eqn:Hh.
      * destruct (io_fault w path) eqn:Hio; cbn [fst]; split.
        -- intros _. right. right. split; [now exists d | reflexivity].
        -- reflexivity.
        -- discriminate.
        -- intros [H | [(d' & [= <-] & H) | [_ H]]];
             [now destruct (H d) | congruence | discriminate H].
      * cbn [fst]. split; [|reflexivity].
        intros _. right. left. now exists d.
    + cbn [fst]. split; [|reflexivity].
      intros _. left. intros d. discriminate.
    + cbn [fst]. split; [|reflexivity].
      intros _. left. intros d. discriminate.
  - intros Hr Hh Hio. rewrite Hr, Hio. change (size "" + 1) with 1.
    now destruct (heap w 1).
Qed.

Lemma read_file_null_cases_witness :
  read_file "/empty" Sample.world
  = (Returned (Some (String NUL EmptyString)), Sample.world).
Proof.
  assert (forall d, resolve Sample.world "/empty" = Some (IFile d)
                    -> size d < npos) as Hfit.
  { intros d H. vm_compute in H. injection H as <-. reflexivity. }
  apply (proj2 (read_file_null_cases "/empty" Sample.world Hfit));
    [reflexivity | discriminate | reflexivity].
Defined.

End Files.

Section RoundTrip.
Import SizeT CxxString CxxSubstr Console Sys Spec kernel.

Lemma ofstream_nonempty (path f : string) (w w' : World) :
  ofstream path w = (Returned (Some f), w') -> empty path = false.
Proof.
  unfold ofstream.
  destruct (resolve w path) as [[d|names]|]; try discriminate;
    destruct (empty path); cbn; congruence.
Qed.

(** [write_file]: a failed open, or the C string stored and reported. *)
Lemma write_file_cases (path content : string) (w : World) :
  (ofstream path w = (Returned None, w) /\
   write_file path content w =
   (Returned (-1), emit true Error "Failed to open file for writing" w))
  \/
  (empty path = false /\
   write_file path content w =
   (Returned 0,
    emit true Info "File written successfully"
      (with_vfs (<[path := IFile (c_str content)]> (vfs w)) w))).
Proof.
  unfold write_file, try_catch.
  destruct (ofstream_cases path w) as [E | E];
    rewrite (bind_returned _ _ _ _ _ E); [left | right].
  - now split.
  - split; [exact (ofstream_nonempty _ _ _ _ E)|].
    rewrite take_strlen.
    now rewrite (bind_returned _ _ _ _ _ (write_after_open _ _ _)).
Qed.

Lemma c_str_cut (a b : string) :
  nul_free a = true -> c_str (a +:+ String NUL b) = a.
Proof.
  unfold nul_free. induction a as [|x a IH]; cbn -[Ascii.eqb];
    [reflexivity|].
  rewrite negb_true_iff, orb_false_iff. intros [Hx Ha].
  rewrite Ascii.eqb_sym, Hx, IH; [reflexivity | now rewrite Ha].
Qed.

(** C2 (as amended).  After a successful [write_file p c] the file [p]
    holds [c] as a C string: all of [c] when it has no NUL byte, and [c]
    cut at its first NUL otherwise.  A following [read_file p] returns
    those bytes followed by one NUL, provided the allocation of the result
    and the read succeed; when either fails it returns null. *)
Theorem write_then_read (p c : string) (w w' : World) :
  strlen c < npos ->
  write_file p c w = (Returned 0, w') ->
  resolve w' p = Some (IFile (c_str c))
  /\ (heap w' (strlen c + 1) <> None -> io_fault w' p = false ->
      read_file p w' =
      (Returned (Some (c_str c +:+ String NUL EmptyString)), w'))
  /\ (heap w' (strlen c + 1) = None \/ io_fault w' p = true ->
      fst (read_file p w') = Returned None)
  /\ (nul_free c = true -> c_str c = c)
  /\ (forall a b, c = a +:+ String NUL b -> nul_free a = true ->
                  c_str c = a).
Proof.
  intros Hfit Hw.
  destruct (write_file_cases p c w) as [[_ E] | [Hp E]];
    rewrite E in Hw; [discriminate Hw|].
  injection Hw as <-.
  set (w' := emit _ _ _ _).
  assert (resolve w' p = Some (IFile (c_str c))) as Hr.
  { unfold resolve. rewrite Hp. subst w'. cbn [vfs emit with_console with_vfs].
    apply lookup_insert_eq. }
  assert (forall d, resolve w' p = Some (IFile d) -> size d < npos) as Hd.
  { intros d. rewrite Hr. now intros [= <-]. }
  split; [exact Hr|].
  rewrite (read_file_unfold p w' Hd), Hr. fold (strlen c).
  repeat split.
  - intros Hh Hio. rewrite Hio. now destruct (heap w' (strlen c + 1)).
  - intros [Hh | Hio]; [now rewrite Hh|].
    rewrite Hio. now destruct (heap w' (strlen c + 1)).
  - apply c_str_nul_free.
  - intros a b -> Ha. now apply c_str_cut.
Qed.

Lemma write_then_read_witness :
  read_file "/f" (snd (write_file "/f" Sample.a_nul_b Sample.world))
  = (Returned (Some (String "a" (String NUL EmptyString))),
     snd (write_file "/f" Sample.a_nul_b Sample.world)).
Proof.
  apply (write_then_read "/f" Sample.a_nul_b Sample.world
           (snd (write_file "/f" Sample.a_nul_b Sample.world)));
    [reflexivity | reflexivity | discriminate | reflexivity].
Defined.

(** C2 as stated fails when the heap has no room for the result: the
    write succeeds, the file holds the three bytes, the four-byte block for
    the result cannot be allocated, and [read_file] answers null. *)
Lemma round_trip_needs_memory :
  let w' := snd (write_file "/f" "abc" Sample.world_low_memory) in
  fst (write_file "/f" "abc" Sample.world_low_memory) = Returned 0
  /\ resolve w' "/f" = Some (IFile "abc")
  /\ fst (read_file "/f" w') = Returned None.
Proof. repeat split. Qed.

End RoundTrip.

(** ** Boundary functions: [list_directory] *)

Section Listing.
Import SizeT CxxString CxxSubstr Console Sys Spec kernel.

Lemma listing_acc (acc : string) (entries : list string) :
  Forall (fun e => nul_free e = true) entries ->
  listing acc entries = acc +:+ newline_joined entries.
Proof.
  intros He. revert acc.
  induction He as [|e entries Hn He IH]; intros acc;
    cbn [listing newline_joined].
  - now rewrite app_empty_r.
  - rewrite IH, (c_str_nul_free _ Hn). now rewrite !app_assoc_s.
Qed.

Lemma nul_free_newline_joined (entries : list string) :
  Forall (fun e => nul_free e = true) entries ->
  nul_free (newline_joined entries) = true.
Proof.
  induction 1 as [|e entries Hn He IH]; cbn [newline_joined];
    [reflexivity|].
  now rewrite !nul_free_app, Hn, IH.
Qed.

(** [list_directory], case by case, for listings that fit [size_t]. *)
Lemma list_directory_unfold (path : string) (w : World) :
  (forall names, resolve w path = Some (IDir names) ->
     size (newline_joined (List.map c_str names)) < npos) ->
  list_directory path w =
  match resolve w path with
  | Some (IDir names) =>
      let text := newline_joined (List.map c_str names) in
      match heap w (size text + 1) with
      | None =>
          (Returned None,
           emit true Error
             "Failed to allocate memory for directory listing" w)
      | Some _ => (Returned (Some (text +:+ String NUL EmptyString)), w)
      end
  | _ => (Returned None, emit true Error "Failed to open directory" w)
  end.
Proof.
  intros Hfit. unfold list_directory.
  unfold bind at 1, opendir.
  destruct (resolve w path) as [[d|names]|]; try reflexivity.
  specialize (Hfit names eq_refl).
  pose proof (readdir_names_nul_free names) as He.
  rewrite (listing_acc _ _ He). cbn [String.append]. cbv zeta.
  set (text := newline_joined (List.map c_str names)) in *.
  pose proof (size_nonneg text) as Ht. rewrite npos_value in Hfit.
  unfold add. rewrite wrap_small by (unfold modulus, bits; lia).
  unfold bind at 1, malloc.
  destruct (heap w (size text + 1)) as [stale|]; [|reflexivity].
  pose proof (length_block (size text + 1) stale) as Hl.
  unfold bind at 1, lift at 1, strcpy. unfold strlen.
  rewrite !(c_str_nul_free text) by now apply nul_free_newline_joined.
  destruct (Z.ltb_spec (size text)
              (size (take (Z.to_nat (size text + 1))
                          (stale +:+ fill (size text + 1) NUL))))
    as [_|H]; [|unfold size in *; lia].
  rewrite overwrite_exact; [reflexivity|].
  rewrite Hl, length_app_s. unfold size. cbn. lia.
Qed.

(** C9.  [list_directory] returns null exactly when the directory cannot
    be opened or the result block cannot be allocated.  Otherwise it
    returns a fresh block that holds every entry name the iteration
    yields, [.] and [..] included, each followed by one newline, in
    iteration order, and then the terminating NUL. *)
Theorem list_directory_behaviour (path : string) (w : World) :
  (forall names, resolve w path = Some (IDir names) ->
     size (newline_joined (List.map c_str names)) < npos) ->
  let open_fails := fst (opendir path w) = Returned None in
  let alloc_fails :=
    exists entries,
      fst (opendir path w) = Returned (Some entries)
      /\ heap w (size (newline_joined entries) + 1) = None in
  (fst (list_directory path w) = Returned None
   <-> open_fails \/ alloc_fails)
  /\ (forall entries,
        fst (opendir path w) = Returned (Some entries) ->
        heap w (size (newline_joined entries) + 1) <> None ->
        list_directory path w =
        (Returned (Some (newline_joined entries +:+ String NUL EmptyString)),
         w)).
Proof.
  intros Hfit open_fails alloc_fails.
  rewrite (list_directory_unfold _ w Hfit).
  subst open_fails alloc_fails. unfold opendir. cbn [fst].
  destruct (resolve w path) as [[d|names]|]; cbv zeta.
  - split; [split; auto|]. intros entries [=].
  - set (text := newline_joined (List.map c_str names)).
    destruct (heap w (size text + 1)) as [stale|] eqn:Hh; split.
    + cbn [fst]. split; [discriminate|].
      intros [[=] | (entries & [= <-] & H)]. fold text in H. congruence.
    + intros entries [= <-] _. reflexivity.
    + cbn [fst]. split; [|reflexivity]. intros _. right.
      exists (List.map c_str names). now split.
    + intros entries [= <-] H. fold text in H. congruence.
  - split; [split; auto|]. intros entries [=].
Qed.

Lemma list_directory_behaviour_witness :
  list_directory "/docs" Sample.world
  = (Returned (Some (String "." (String "010" (String "." (String "."
                (String "010" (String NUL EmptyString))))))),
     Sample.world).
Proof.
  assert (forall names, resolve Sample.world "/docs" = Some (IDir names) ->
            size (newline_joined (List.map c_str names)) < npos) as Hfit.
  { intros names H. vm_compute in H. injection H as <-. reflexivity. }
  apply (proj2 (list_directory_behaviour "/docs" Sample.world Hfit)
               ["."; ".."]);
    [reflexivity | discriminate].
Defined.

End Listing.

(** ** Outcomes and messages *)

Section Logging.
Import SizeT CxxString CxxSubstr Console Sys Spec commands kernel.

Lemma error_logged_emit (text : string) (w : World) :
  error_logged w (emit true Error text w).
Proof. exists [(Error, text)], text. split; [reflexivity | now left]. Qed.

Lemma something_logged_emit (wrapped : bool) (lv : level) (text : string)
    (w : World) :
  something_logged w (emit wrapped lv text w).
Proof. now exists (lv, text), []. Qed.

(** Messages printed before the decisive one do not hide it. *)
Lemma error_logged_after (pre : list (level * string)) (w w1 w2 : World) :
  printed w1 = (printed w ++ pre)%list ->
  error_logged w1 w2 -> error_logged w w2.
Proof.
  intros Hp (msgs & text & Hm & Hi).
  exists (pre ++ msgs)%list, text. split.
  - now rewrite Hm, Hp, app_assoc.
  - apply in_or_app. now right.
Qed.

Lemma something_logged_emit_all (msg : level * string)
    (msgs : list (level * string)) (w : World) :
  something_logged w (emit_all (msg :: msgs) w).
Proof. exists msg, msgs. apply printed_emit_all. Qed.

Local Ltac absurd_outcome :=
  match goal with
  | H : Thrown _ = Returned _ |- _ => discriminate H
  | H : Undefined = Returned _ |- _ => discriminate H
  | H : Returned ?a = Returned ?b |- _ =>
      first [discriminate H | injection H as H; (lia || congruence)]
  end.

Lemma ls_fails_loudly (args : string) : fails_loudly (ls args).
Proof.
  intros w status. rewrite ls_unfold. cbv zeta.
  set (path := if empty args then "/" else c_str args).
  set (heading := [(Info, "ls command executing");
                   (Info, "Listing directory:"); (Info, path)]).
  assert (forall w3, printed w3 = (printed w ++ heading)%list ->
            error_logged w
              (emit_all [(Error, "Failed to open directory: ");
                         (Error, path)] w3)) as Herr.
  { intros w3 H3. apply (error_logged_after heading w w3 _ H3).
    exists [(Error, "Failed to open directory: "); (Error, path)], path.
    split; [apply printed_emit_all | cbn; auto]. }
  destruct (resolve w path) as [[d|names]|]; cbn [fst snd].
  - intros _ _. apply Herr, printed_emit_all.
  - unfold bind at 1.
    rewrite (readdir_loop_lines path (List.map c_str names) w
               (emit_all heading w));
      [ | subst path; destruct (empty args);
          [reflexivity | apply nul_free_c_str]
        | apply readdir_names_nul_free
        | apply vfs_emit_all ].
    cbn [fst ret]. intros [= <-]. lia.
  - intros _ _. apply Herr, printed_emit_all.
Qed.

Lemma ls_succeeds_loudly (args : string) : succeeds_loudly (ls args).
Proof.
  intros w _. rewrite ls_unfold. cbv zeta.
  set (path := if empty args then "/" else c_str args).
  assert (nul_free path = true) as Hp
    by (subst path; destruct (empty args);
        [reflexivity | apply nul_free_c_str]).
  destruct (resolve w path) as [[d|names]|]; cbn [fst snd].
  - rewrite <- emit_all_app. apply something_logged_emit_all.
  - unfold bind at 1.
    rewrite (readdir_loop_lines path (List.map c_str names) w _ Hp
               (readdir_names_nul_free names) (vfs_emit_all _ _)).
    cbn [snd ret]. rewrite <- emit_all_app.
    apply something_logged_emit_all.
  - rewrite <- emit_all_app. apply something_logged_emit_all.
Qed.

Local Ltac finish :=
  cbv beta iota delta
    [bind lift ret emscripten_console_log emscripten_console_error
     fst snd];
  intros;
  first [absurd_outcome | apply error_logged_emit
        | apply something_logged_emit | (split; reflexivity)
        | (eexists _, nil; reflexivity)].

(** Run a straight-line function down to the answers of the world. *)
Local Ltac run_program :=
  cbv beta iota zeta delta
    [cat rm delete_file read_file list_directory
     bind ret lift try_catch ifstream_ate read malloc remove opendir
     tellg seekg in_pos in_path in_data
     emscripten_console_log emscripten_console_error fst snd].
Local Ltac cases :=
  repeat (match goal with
          | |- context [empty ?a] => destruct (empty a)
          | |- context [resolve ?w ?p] =>
              destruct (resolve w p) as [[?|?]|]
          | |- context [heap ?w ?n] => destruct (heap w n)
          | |- context [io_fault ?w ?p] => destruct (io_fault w p)
          | |- context [Z.ltb ?a ?b] => destruct (Z.ltb a b)
          | |- context [forallb ?f ?l] => destruct (forallb f l)
          | |- context [store ?a ?b ?c] => destruct (store a b c)
          | |- context [strcpy ?a ?b] => destruct (strcpy a b)
          end; cbv beta iota delta [orb andb negb]).

Lemma cat_logs (args : string) :
  fails_loudly (cat args) /\ succeeds_loudly (cat args).
Proof.
  split; intros w; [intros status|]; run_program; cases; finish.
Qed.

Lemma echo_fails_loudly (args : string) : fails_loudly (echo args).
Proof.
  intros w status. unfold echo.
  destruct (negb (find args ">" =? npos)); [|finish].
  destruct (substr args 0 (find args ">")) as [content| |];
    [|unfold bind, lift; finish..].
  destruct (substr_from args (add (find args ">") 1)) as [filename| |];
    [|unfold bind, lift; finish..].
  destruct (substr content 0
              (add (find_last_not_of content blank_set) 1))
    as [content'| |] eqn:Ec;
    [|unfold bind, lift; rewrite Ec; finish..].
  destruct (substr_from filename (find_first_not_of filename blank_set))
    as [filename'| |] eqn:Ef;
    [|unfold bind, lift; rewrite Ec, Ef; finish..].
  destruct (ofstream_cases (c_str filename') w) as [E | E].
  - unfold bind, lift. rewrite Ec, Ef, E. finish.
  - unfold bind, lift. rewrite Ec, Ef, E, write_after_open. finish.
Qed.

Lemma echo_plain_succeeds_loudly (args : string) :
  cut ">" args = None -> succeeds_loudly (echo args).
Proof.
  intros Hc w _. rewrite (echo_plain _ w Hc). apply something_logged_emit.
Qed.

Lemma echo_redirect_succeeds_silently (args : string) :
  size args < npos -> cut ">" args <> None ->
  succeeds_silently (echo args).
Proof.
  intros Hs Hc w. destruct (cut ">" args) as [[before after]|] eqn:E;
    [clear Hc | now destruct Hc].
  destruct (all_blank after) eqn:Hb.
  - rewrite (echo_blank_target _ _ _ w Hs E Hb). discriminate.
  - rewrite (echo_redirect _ _ _ w Hs E Hb).
    destruct (ofstream_cases (c_str (ltrim after)) w) as [Ho | Ho];
      rewrite (bind_returned _ _ _ _ _ Ho).
    + discriminate.
    + rewrite (bind_returned _ _ _ _ _ (write_after_open _ _ _)).
      intros _. now split.
Qed.

Lemma rm_logs (args : string) :
  fails_loudly (rm args) /\ succeeds_silently (rm args).
Proof.
  split; intros w; [intros status|]; run_program; cases; finish.
Qed.

Lemma registry_dispatch_fails_loudly (cmd args : string) :
  fails_loudly
    match command_registry !! cmd with
    | Some handler => handler args
    | None => run emscripten_console_error "Unknown command"; ret (-1)
    end.
Proof.
  rewrite registry_lookup. unfold registered.
  destruct (String.eqb cmd "ls"); [apply ls_fails_loudly|].
  destruct (String.eqb cmd "cat"); [apply cat_logs|].
  destruct (String.eqb cmd "echo"); [apply echo_fails_loudly|].
  destruct (String.eqb cmd "rm"); [apply rm_logs|].
  intros w status _ _. apply error_logged_emit.
Qed.

Lemma execute_command_fails_loudly (command : string) :
  fails_loudly (execute_command command).
Proof.
  intros w status. unfold execute_command.
  destruct (negb (find command " " =? npos)).
  - destruct (substr command 0 _) as [cmd| |];
      [|unfold bind, lift; finish..].
    destruct (substr_from command _) as [args| |];
      [|unfold bind, lift; finish..].
    exact (registry_dispatch_fails_loudly cmd args w status).
  - exact (registry_dispatch_fails_loudly command EmptyString w status).
Qed.

Lemma execute_fails_loudly (command : option string) :
  fails_loudly (execute command).
Proof.
  intros w status. unfold execute.
  destruct command as [command|];
    [destruct (negb (empty (c_str command)))|];
    [apply execute_command_fails_loudly | |];
    intros _ _; apply error_logged_emit.
Qed.

Lemma write_file_logs (p c : string) :
  fails_loudly (write_file p c) /\ succeeds_loudly (write_file p c).
Proof.
  split; intros w; [intros status|].
  all: destruct (write_file_cases p c w) as [[_ E] | [_ E]]; rewrite E.
  all: finish.
Qed.

Lemma delete_file_logs (p : string) :
  fails_loudly (delete_file p) /\ succeeds_loudly (delete_file p).
Proof.
  split; intros w; [intros status|]; run_program; cases; finish.
Qed.

Lemma read_file_null_loudly (p : string) : null_loudly (read_file p).
Proof. intros w. run_program; cases; finish. Qed.

Lemma list_directory_null_loudly (p : string) :
  null_loudly (list_directory p).
Proof. intros w. run_program; cases; finish. Qed.

End Logging.

Section LoggingBehaviour.
Import SizeT CxxString CxxSubstr Console Sys Spec commands kernel.

(** C8 (as amended).  Every failure that an operation reports through
    its return value, a negative status of [ls], [cat], [echo], [rm], of
    the dispatcher, of [execute], [write_file] and [delete_file], a null
    block of [read_file] and [list_directory], comes with at least one
    error message.  Among the successes, [ls], [cat], [echo] without [>],
    [write_file] and [delete_file] print at least one message; [rm] after
    a successful deletion and [echo] after a successful redirected write
    return 0 and print nothing. *)
Theorem outcomes_and_messages :
  (forall args,
     fails_loudly (ls args) /\ fails_loudly (cat args)
     /\ fails_loudly (echo args) /\ fails_loudly (rm args)
     /\ fails_loudly (execute_command args))
  /\ (forall command, fails_loudly (execute command))
  /\ (forall p c,
        fails_loudly (write_file p c) /\ succeeds_loudly (write_file p c))
  /\ (forall p,
        fails_loudly (delete_file p) /\ succeeds_loudly (delete_file p)
        /\ null_loudly (read_file p) /\ null_loudly (list_directory p))
  /\ (forall args,
        succeeds_loudly (ls args) /\ succeeds_loudly (cat args)
        /\ (cut ">" args = None -> succeeds_loudly (echo args)))
  /\ (forall args,
        succeeds_silently (rm args)
        /\ (size args < npos -> cut ">" args <> None ->
            succeeds_silently (echo args))).
Proof.
  refine (conj _ (conj _ (conj _ (conj _ (conj _ _))))).
  - intros args. refine (conj _ (conj _ (conj _ (conj _ _)))).
    + apply ls_fails_loudly.
    + apply cat_logs.
    + apply echo_fails_loudly.
    + apply rm_logs.
    + apply execute_command_fails_loudly.
  - apply execute_fails_loudly.
  - apply write_file_logs.
  - intros p. refine (conj _ (conj _ (conj _ _))).
    + apply delete_file_logs.
    + apply delete_file_logs.
    + apply read_file_null_loudly.
    + apply list_directory_null_loudly.
  - intros args. refine (conj _ (conj _ _)).
    + apply ls_succeeds_loudly.
    + apply cat_logs.
    + apply echo_plain_succeeds_loudly.
  - intros args. refine (conj _ _).
    + apply rm_logs.
    + apply echo_redirect_succeeds_silently.
Qed.

Lemma outcomes_and_messages_witness :
  nothing_logged Sample.world (snd (echo "hi > /out.txt" Sample.world))
  /\ error_logged Sample.world (snd (rm "/nowhere" Sample.world)).
Proof.
  destruct outcomes_and_messages as (Hfail & _ & _ & _ & _ & Hsilent).
  refine (conj _ _).
  - apply (proj2 (Hsilent "hi > /out.txt"));
      [reflexivity | discriminate | reflexivity].
  - apply (proj1 (proj2 (proj2 (proj2 (Hfail "/nowhere"))))
             Sample.world (-1)); [reflexivity | reflexivity].
Defined.

(** C8 as stated fails on a successful deletion: [rm] removes the file,
    returns 0 and neither the console nor the sink receives anything. *)
Lemma rm_success_prints_nothing :
  fst (rm "/a.txt" Sample.world) = Returned 0
  /\ resolve (snd (rm "/a.txt" Sample.world)) "/a.txt" = None
  /\ printed (snd (rm "/a.txt" Sample.world)) = []
  /\ sink (snd (rm "/a.txt" Sample.world)) = []
  /\ ~ something_logged Sample.world (snd (rm "/a.txt" Sample.world)).
Proof.
  repeat split. intros (msg & msgs & H). discriminate H.
Qed.

(** The same holds for a successful redirected [echo]. *)
Example echo_redirect_prints_nothing :
  fst (echo "hi > /out.txt" Sample.world) = Returned 0
  /\ resolve (snd (echo "hi > /out.txt" Sample.world)) "/out.txt"
     = Some (IFile "hi")
  /\ printed (snd (echo "hi > /out.txt" Sample.world)) = [].
Proof. repeat split. Qed.

(** The boundary function [delete_file] reports its success. *)
Example delete_file_reports_success :
  fst (delete_file "/a.txt" Sample.world) = Returned 0
  /\ printed (snd (delete_file "/a.txt" Sample.world))
     = [(Info, "File deleted successfully")].
Proof. repeat split. Qed.

End LoggingBehaviour.

(** ** The shell session of the specification

    The testable properties the specification lists, run one after the
    other on the sample world. *)

Section Session.
Import SizeT CxxString CxxSubstr Console Sys Spec commands kernel.

Let w0 : World := Sample.world.
Let w1 : World := snd (execute_command "echo hello" w0).
Let w2 : World := snd (execute_command "echo hi > /out.txt" w1).
Let w3 : World := snd (execute_command "cat /out.txt" w2).
Let w4 : World := snd (execute_command "rm /out.txt" w3).

Example session_echo_hello :
  fst (execute_command "echo hello" w0) = Returned 0
  /\ printed w1 = [(Info, "hello")]
  /\ vfs w1 = vfs w0.
Proof. repeat split. Qed.

Example session_echo_redirect :
  fst (execute_command "echo hi > /out.txt" w1) = Returned 0
  /\ resolve w2 "/out.txt" = Some (IFile "hi")
  /\ printed w2 = printed w1.
Proof. repeat split. Qed.

Example session_cat :
  fst (execute_command "cat /out.txt" w2) = Returned 0
  /\ printed w3 = (printed w2 ++ [(Info, "hi")])%list.
Proof. repeat split. Qed.

Example session_rm_twice :
  fst (execute_command "rm /out.txt" w3) = Returned 0
  /\ fst (file_exists "/out.txt" w4) = Returned 0
  /\ fst (execute_command "rm /out.txt" w4) = Returned (-1).
Proof. repeat split. Qed.

Example session_list_empty_directory :
  fst (list_directory "/docs" w0)
  = Returned (Some (String "." (String "010" (String "." (String "."
               (String "010" (String NUL EmptyString))))))).
Proof. reflexivity. Qed.

(** A host that refuses the write: [echo] prints the error, returns -1 and
    creates nothing. *)
Example echo_refused :
  fst (echo "hi > /out.txt" Sample.world_read_only) = Returned (-1)
  /\ printed (snd (echo "hi > /out.txt" Sample.world_read_only))
     = [(Error, "Failed to open file for writing")]
  /\ vfs (snd (echo "hi > /out.txt" Sample.world_read_only))
     = vfs Sample.world_read_only.
Proof. repeat split. Qed.

(** Only the right of the text and only the left of the target are
    trimmed. *)
Example echo_trims_one_side_each :
  resolve (snd (echo "  hi  >  out.txt " Sample.world)) "out.txt "
  = Some (IFile "  hi").
Proof. reflexivity. Qed.

End Session.

(** * Further properties of the code *)

(** ** Composing frames *)

Section Respects.
Import Frame.

Context (R : World -> World -> Prop) {HR : PreOrder R}.
Context {A B : Type}.

Lemma respects_ret (a : A) : respects R (ret a).
Proof. intros w. reflexivity. Qed.

Lemma respects_lift (o : outcome A) : respects R (lift o).
Proof. intros w. reflexivity. Qed.

Lemma respects_bind (m : M A) (k : A -> M B) :
  respects R m -> (forall a, respects R (k a)) -> respects R (bind m k).
Proof.
  intros Hm Hk w. unfold bind. specialize (Hm w).
  destruct (m w) as [[a| |] w']; cbn [snd] in *; try exact Hm.
  transitivity w'; [exact Hm | apply Hk].
Qed.

Lemma respects_try_catch (body : M A) (handler : exception -> M A) :
  respects R body -> (forall e, respects R (handler e)) ->
  respects R (try_catch body handler).
Proof.
  intros Hb Hh w. unfold try_catch. specialize (Hb w).
  destruct (body w) as [[a|e|] w']; cbn [snd] in *; try exact Hb.
  transitivity w'; [exact Hb | apply Hh].
Qed.

End Respects.

Section RespectsLoop.
Import Frame commands.

Context (R : World -> World -> Prop) {HR : PreOrder R}.

Lemma respects_readdir_loop (body : string -> M unit)
    (entries : list string) :
  (forall e, respects R (body e)) -> respects R (readdir_loop body entries).
Proof.
  intros Hb. induction entries as [|e entries IH]; cbn [readdir_loop].
  - apply respects_ret. exact HR.
  - apply respects_bind; [exact HR | apply Hb | intros _; exact IH].
Qed.

End RespectsLoop.

Section ReturnsIn.
Import Frame.

Context {A B : Type} (P : B -> Prop).

Lemma returns_in_ret (b : B) : P b -> returns_in P (ret b).
Proof. intros Hb w a [= <-]. exact Hb. Qed.

(** Only the last step decides what is returned. *)
Lemma returns_in_bind (m : M A) (k : A -> M B) :
  (forall a, returns_in P (k a)) -> returns_in P (bind m k).
Proof.
  intros Hk w b. unfold bind.
  destruct (m w) as [[a| |] w']; cbn [fst]; try discriminate.
  apply Hk.
Qed.

Lemma returns_in_try_catch (body : M B) (handler : exception -> M B) :
  returns_in P body -> (forall e, returns_in P (handler e)) ->
  returns_in P (try_catch body handler).
Proof.
  intros Hb Hh w b. unfold try_catch. specialize (Hb w).
  destruct (body w) as [[a|e|] w']; cbn [fst] in *; try discriminate.
  - apply Hb.
  - apply Hh.
Qed.

End ReturnsIn.

(** ** The frames are preorders *)

Section FrameOrders.
Import Frame.

#[global] Instance same_files_preorder : PreOrder same_files.
Proof.
  split.
  - intros w. reflexivity.
  - intros a b c Hab Hbc. unfold same_files in *. congruence.
Qed.

#[global] Instance console_extends_preorder : PreOrder console_extends.
Proof.
  split.
  - intros w. split; [reflexivity|]. exists []. cbn.
    now rewrite !app_nil_r.
  - intros a b c [Sab (m1 & P1 & K1)] [Sbc (m2 & P2 & K2)].
    split; [congruence|]. exists (m1 ++ m2)%list.
    rewrite P2, P1, K2, K1, Sab, flat_map_app, <- !app_assoc.
    split; reflexivity.
Qed.

(** A step that does not touch the console extends it by nothing. *)
Lemma console_quiet (w w' : World) :
  printed w' = printed w -> sink w' = sink w -> shims w' = shims w ->
  console_extends w w'.
Proof.
  intros Hp Hs Hk. split; [exact Hk|]. exists []. cbn.
  now rewrite !app_nil_r.
Qed.

(** A message through [console.log] or [console.error] is printed once and
    mirrored once a wrapper; a warning is printed only. *)
Lemma console_emit (wrapped : bool) (lv : level) (text : string)
    (w : World) :
  wrapped = match lv with Warn => false | _ => true end ->
  console_extends w (Console.emit wrapped lv text w).
Proof.
  intros ->. split; [reflexivity|]. exists [(lv, text)].
  destruct lv; cbn; now rewrite ?app_nil_r.
Qed.

End FrameOrders.

(** ** The primitives and the frames *)

Section Leaves.
Import Frame CxxString Console Sys.

Local Ltac leaf :=
  intros w;
  unfold emscripten_console_log, emscripten_console_error,
    emscripten_console_warn, stat, opendir, remove, ofstream,
    ofstream_write, ifstream_ate, read, malloc;
  repeat case_match; cbn [snd];
  first [ reflexivity
        | apply console_quiet; reflexivity
        | apply console_emit; reflexivity ].

Lemma files_log (t : string) : respects same_files (emscripten_console_log t).
Proof. leaf. Qed.
Lemma files_error (t : string) :
  respects same_files (emscripten_console_error t).
Proof. leaf. Qed.
Lemma files_warn (t : string) :
  respects same_files (emscripten_console_warn t).
Proof. leaf. Qed.
Lemma files_stat (p : string) : respects same_files (stat p).
Proof. leaf. Qed.
Lemma files_opendir (p : string) : respects same_files (opendir p).
Proof. leaf. Qed.
Lemma files_ifstream (p : string) : respects same_files (ifstream_ate p).
Proof. leaf. Qed.
Lemma files_read (f : ifstream) (buf : string) (n : Z) :
  respects same_files (read f buf n).
Proof. leaf. Qed.
Lemma files_malloc (n : Z) : respects same_files (malloc n).
Proof. leaf. Qed.

Lemma console_log (t : string) :
  respects console_extends (emscripten_console_log t).
Proof. leaf. Qed.
Lemma console_error (t : string) :
  respects console_extends (emscripten_console_error t).
Proof. leaf. Qed.
Lemma console_stat (p : string) : respects console_extends (stat p).
Proof. leaf. Qed.
Lemma console_opendir (p : string) : respects console_extends (opendir p).
Proof. leaf. Qed.
Lemma console_remove (p : string) : respects console_extends (remove p).
Proof. leaf. Qed.
Lemma console_ofstream (p : string) : respects console_extends (ofstream p).
Proof. leaf. Qed.
Lemma console_ofstream_write (f bytes : string) :
  respects console_extends (ofstream_write f bytes).
Proof. leaf. Qed.
Lemma console_ifstream (p : string) :
  respects console_extends (ifstream_ate p).
Proof. leaf. Qed.
Lemma console_read (f : ifstream) (buf : string) (n : Z) :
  respects console_extends (read f buf n).
Proof. leaf. Qed.
Lemma console_malloc (n : Z) : respects console_extends (malloc n).
Proof. leaf. Qed.

End Leaves.

(** ** Walking through a function *)

Create HintDb frame.

#[global] Hint Resolve files_log files_error files_warn files_stat
  files_opendir files_ifstream files_read files_malloc
  console_log console_error console_stat console_opendir console_remove
  console_ofstream console_ofstream_write console_ifstream console_read
  console_malloc : frame.

(** One step a time through binds, branches and the loop of [ls], closing
    each primitive with the lemmas above. *)
Ltac frame_walk :=
  cbv zeta;
  repeat first
    [ solve [auto with frame]
    | apply respects_ret; typeclasses eauto
    | apply respects_lift; typeclasses eauto
    | apply respects_bind; [ typeclasses eauto | | intros ? ]
    | apply respects_try_catch; [ typeclasses eauto | | intros ? ]
    | apply respects_readdir_loop; [ typeclasses eauto | intros ? ]
    | apply returns_in_bind; intros ?
    | apply returns_in_try_catch; [ | intros ? ]
    | apply returns_in_ret; solve [auto with frame]
    | match goal with
      | |- Frame.respects _ (match ?x with _ => _ end) => destruct x
      | |- Frame.returns_in _ (match ?x with _ => _ end) => destruct x
      end ].

Section Handlers.
Import Frame SizeT CxxString CxxSubstr Console Sys Spec commands kernel.

Lemma exit_zero : exit_code 0.
Proof. now left. Qed.

Lemma exit_minus_one : exit_code (-1).
Proof. now right. Qed.

#[local] Hint Resolve exit_zero exit_minus_one : frame.

(** A property of the four handlers and of the answer to an unknown name
    is a property of whatever the registry look-up runs. *)
Lemma registry_cases (Q : M Z -> Prop) (cmd args : string) :
  Q (ls args) -> Q (cat args) -> Q (echo args) -> Q (rm args) ->
  Q (run emscripten_console_error "Unknown command"; ret (-1)) ->
  Q match command_registry !! cmd with
    | Some handler => handler args
    | None => run emscripten_console_error "Unknown command"; ret (-1)
    end.
Proof.
  intros Hls Hcat Hecho Hrm Hnone. rewrite registry_lookup.
  unfold registered.
  repeat match goal with
         | |- context [String.eqb cmd ?k] => destruct (String.eqb cmd k)
         end; assumption.
Qed.

(** *** The file table *)

Lemma ls_keeps_files (args : string) : respects same_files (ls args).
Proof. unfold ls, ls_entry. frame_walk. Qed.

Lemma cat_keeps_files (args : string) : respects same_files (cat args).
Proof. unfold cat. frame_walk. Qed.

Lemma read_file_keeps_files (p : string) : respects same_files (read_file p).
Proof. unfold read_file. frame_walk. Qed.

Lemma list_directory_keeps_files (p : string) :
  respects same_files (list_directory p).
Proof. unfold list_directory. frame_walk. Qed.

Lemma file_exists_keeps_files (p : string) :
  respects same_files (file_exists p).
Proof. unfold file_exists. frame_walk. Qed.

Lemma get_version_keeps_files : respects same_files get_version.
Proof. unfold get_version. frame_walk. Qed.

Lemma init_keeps_files : respects same_files init.
Proof.
  unfold init. apply respects_bind; [typeclasses eauto | | intros _].
  - intros w. reflexivity.
  - frame_walk.
Qed.

(** *** The console *)

Lemma ls_console (args : string) : respects console_extends (ls args).
Proof. unfold ls, ls_entry. frame_walk. Qed.

Lemma cat_console (args : string) : respects console_extends (cat args).
Proof. unfold cat. frame_walk. Qed.

Lemma echo_console (args : string) : respects console_extends (echo args).
Proof. unfold echo. frame_walk. Qed.

Lemma rm_console (args : string) : respects console_extends (rm args).
Proof. unfold rm. frame_walk. Qed.

Lemma execute_command_console (command : string) :
  respects console_extends (execute_command command).
Proof.
  unfold execute_command. cbv zeta.
  apply respects_bind; [typeclasses eauto | frame_walk | intros cmd].
  apply respects_bind; [typeclasses eauto | frame_walk | intros args].
  apply (registry_cases (respects console_extends));
    first [ apply ls_console | apply cat_console | apply echo_console
          | apply rm_console | frame_walk ].
Qed.

Lemma execute_console (command : option string) :
  respects console_extends (execute command).
Proof.
  unfold execute. destruct command as [command|]; [|frame_walk].
  destruct (negb (empty (c_str command)));
    [apply execute_command_console | frame_walk].
Qed.

Lemma write_file_console (p c : string) :
  respects console_extends (write_file p c).
Proof. unfold write_file. frame_walk. Qed.

Lemma read_file_console (p : string) :
  respects console_extends (read_file p).
Proof. unfold read_file. frame_walk. Qed.

Lemma file_exists_console (p : string) :
  respects console_extends (file_exists p).
Proof. unfold file_exists. frame_walk. Qed.

Lemma delete_file_console (p : string) :
  respects console_extends (delete_file p).
Proof. unfold delete_file. frame_walk. Qed.

Lemma list_directory_console (p : string) :
  respects console_extends (list_directory p).
Proof. unfold list_directory. frame_walk. Qed.

Lemma get_version_console : respects console_extends get_version.
Proof. unfold get_version. frame_walk. Qed.

(** *** The status *)

Lemma ls_exit (args : string) : returns_in exit_code (ls args).
Proof. unfold ls. frame_walk. Qed.

Lemma cat_exit (args : string) : returns_in exit_code (cat args).
Proof. unfold cat. frame_walk. Qed.

Lemma echo_exit (args : string) : returns_in exit_code (echo args).
Proof. unfold echo. frame_walk. Qed.

Lemma rm_exit (args : string) : returns_in exit_code (rm args).
Proof. unfold rm. frame_walk. Qed.

Lemma execute_command_exit (command : string) :
  returns_in exit_code (execute_command command).
Proof.
  unfold execute_command. cbv zeta.
  apply returns_in_bind; intros cmd. apply returns_in_bind; intros args.
  apply (registry_cases (returns_in exit_code));
    first [ apply ls_exit | apply cat_exit | apply echo_exit
          | apply rm_exit | frame_walk ].
Qed.

Lemma execute_exit (command : option string) :
  returns_in exit_code (execute command).
Proof.
  unfold execute. destruct command as [command|]; [|frame_walk].
  destruct (negb (empty (c_str command)));
    [apply execute_command_exit | frame_walk].
Qed.

Lemma write_file_exit (p c : string) :
  returns_in exit_code (write_file p c).
Proof. unfold write_file. frame_walk. Qed.

Lemma delete_file_exit (p : string) : returns_in exit_code (delete_file p).
Proof. unfold delete_file. frame_walk. Qed.

End Handlers.

(** ** What every operation keeps *)

Section Invariants.
Import Frame SizeT CxxString CxxSubstr Console Sys Spec commands kernel.

(** X1.  The listing and reading operations never change the file table,
    whatever they return and however they end: [ls], [cat], [read_file],
    [list_directory], [file_exists], [get_version], [init], and [echo] on
    an argument without [>]. *)
Theorem reading_keeps_the_files :
  (forall args,
     respects same_files (ls args) /\ respects same_files (cat args)
     /\ (cut ">" args = None -> respects same_files (echo args)))
  /\ (forall p,
        respects same_files (read_file p)
        /\ respects same_files (list_directory p)
        /\ respects same_files (file_exists p))
  /\ respects same_files get_version
  /\ respects same_files init.
Proof.
  refine (conj _ (conj _ (conj _ _))).
  - intros args. refine (conj _ (conj _ _)).
    + apply ls_keeps_files.
    + apply cat_keeps_files.
    + intros Hc w. now rewrite (echo_plain _ w Hc).
  - intros p. refine (conj _ (conj _ _)).
    + apply read_file_keeps_files.
    + apply list_directory_keeps_files.
    + apply file_exists_keeps_files.
  - apply get_version_keeps_files.
  - apply init_keeps_files.
Qed.

(** X2.  Every operation other than [init] only adds to the console: it
    installs no wrapper, removes or reorders no message, and the sink
    receives each message printed through [console.log] or
    [console.error] once a wrapper in place, in printing order; this holds
    on every path, the error paths and the throwing path of [echo]
    included. *)
Theorem console_only_grows :
  (forall args,
     respects console_extends (ls args)
     /\ respects console_extends (cat args)
     /\ respects console_extends (echo args)
     /\ respects console_extends (rm args)
     /\ respects console_extends (execute_command args))
  /\ (forall command, respects console_extends (execute command))
  /\ (forall p c, respects console_extends (write_file p c))
  /\ (forall p,
        respects console_extends (read_file p)
        /\ respects console_extends (file_exists p)
        /\ respects console_extends (delete_file p)
        /\ respects console_extends (list_directory p))
  /\ respects console_extends get_version.
Proof.
  refine (conj _ (conj _ (conj _ (conj _ _)))).
  - intros args. refine (conj _ (conj _ (conj _ (conj _ _)))).
    + apply ls_console.
    + apply cat_console.
    + apply echo_console.
    + apply rm_console.
    + apply execute_command_console.
  - apply execute_console.
  - apply write_file_console.
  - intros p. refine (conj _ (conj _ (conj _ _))).
    + apply read_file_console.
    + apply file_exists_console.
    + apply delete_file_console.
    + apply list_directory_console.
  - apply get_version_console.
Qed.

(** X3.  A status that is returned is 0 or -1, for the four commands, the
    dispatcher, [execute], [write_file] and [delete_file]; [file_exists]
    returns 0 or 1. *)
Theorem statuses_are_two :
  (forall args,
     returns_in exit_code (ls args) /\ returns_in exit_code (cat args)
     /\ returns_in exit_code (echo args) /\ returns_in exit_code (rm args)
     /\ returns_in exit_code (execute_command args))
  /\ (forall command, returns_in exit_code (execute command))
  /\ (forall p c, returns_in exit_code (write_file p c))
  /\ (forall p,
        returns_in exit_code (delete_file p)
        /\ returns_in (fun r => r = 0 \/ r = 1) (file_exists p)).
Proof.
  refine (conj _ (conj _ (conj _ _))).
  - intros args. refine (conj _ (conj _ (conj _ (conj _ _)))).
    + apply ls_exit.
    + apply cat_exit.
    + apply echo_exit.
    + apply rm_exit.
    + apply execute_command_exit.
  - apply execute_exit.
  - apply write_file_exit.
  - intros p. refine (conj _ _).
    + apply delete_file_exit.
    + intros w r. unfold file_exists, bind, stat, ret.
      destruct (resolve w p) as [[d|names]|]; cbn [fst];
        intros [= <-]; auto.
Qed.

End Invariants.

(** ** [init] again and again *)

Section InitAgain.
Import Frame Console Spec kernel.

(** X4.  [init] is not idempotent.  Every call installs one more wrapper,
    so the message the call itself prints, and every message printed
    through [console.log] or [console.error] after [n] calls, reaches the
    sink once for each call made so far (and each wrapper there was
    before), while it is printed once. *)
Theorem init_stacks_the_sink (n : nat) (w : World) (text : string) :
  let wn := after_inits n w in
  shims wn = (n + shims w)%nat
  /\ sink (snd (emscripten_console_log text wn))
     = (sink wn ++ List.repeat (text, Info) (n + shims w))%list
  /\ sink (snd (emscripten_console_error text wn))
     = (sink wn ++ List.repeat (text, Error) (n + shims w))%list
  /\ printed (snd (emscripten_console_log text wn))
     = (printed wn ++ [(Info, text)])%list
  /\ sink (after_inits (S n) w)
     = (sink wn
        ++ List.repeat ("Kernel initializing...", Info)
                       (S n + shims w))%list
  /\ printed (after_inits (S n) w)
     = (printed wn
        ++ [(Info, "Kernel initializing...");
            (Warn, "This is an experimental WASM kernel")])%list.
Proof.
  intros wn. pose proof (init_stacks_wrappers n w) as Hk. fold wn in Hk.
  refine (conj Hk (conj _ (conj _ (conj _ (conj _ _))))).
  - cbn. now rewrite Hk.
  - cbn. now rewrite Hk.
  - reflexivity.
  - cbn. fold wn. rewrite Hk. cbn. now rewrite app_nil_r.
  - cbn. fold wn. now rewrite <- app_assoc.
Qed.

End InitAgain.

(** ** Removing *)

Section Removing.
Import Frame SizeT CxxString CxxSubstr Console Sys Spec commands kernel.

(** [remove] either deletes the entry of a path that resolves, or fails
    and leaves the world alone. *)
Lemma remove_cases (path : string) (w : World) :
  (remove path w = (Returned true, with_vfs (delete path (vfs w)) w)
   /\ empty path = false)
  \/ remove path w = (Returned false, w).
Proof.
  unfold remove, resolve. destruct (empty path); [now right|].
  destruct (vfs w !! path) as [[d|names]|]; [left | | right]; auto.
  destruct (forallb dot_entry (List.map c_str names)); auto.
Qed.

Lemma resolve_deleted (path : string) (w : World) :
  resolve (with_vfs (delete path (vfs w)) w) path = None.
Proof.
  unfold resolve. destruct (empty path); [reflexivity|].
  cbn [vfs with_vfs]. apply lookup_delete_eq.
Qed.

Lemma remove_missing (path : string) (w : World) :
  resolve w path = None -> remove path w = (Returned false, w).
Proof. intros H. unfold remove. now rewrite H. Qed.

(** [rm], case by case. *)
Lemma rm_unfold (args : string) (w : World) :
  rm args w =
  if empty args
  then (Returned (-1), emit true Error "Usage: rm <filename>" w)
  else match remove (c_str args) w with
       | (Returned true, w') => (Returned 0, w')
       | (Returned false, w') =>
           (Returned (-1), emit true Error "Failed to delete file" w')
       | (Thrown e, w') => (Thrown e, w')
       | (Undefined, w') => (Undefined, w')
       end.
Proof.
  unfold rm. destruct (empty args); [reflexivity|].
  unfold bind at 1.
  now destruct (remove (c_str args) w) as [[[]| |] w'].
Qed.

(** [delete_file], case by case. *)
Lemma delete_file_unfold (path : string) (w : World) :
  delete_file path w =
  match remove path w with
  | (Returned true, w') =>
      (Returned 0, emit true Info "File deleted successfully" w')
  | (Returned false, w') =>
      (Returned (-1), emit true Error "Failed to delete file" w')
  | (Thrown e, w') => (Thrown e, w')
  | (Undefined, w') => (Undefined, w')
  end.
Proof.
  unfold delete_file. unfold bind at 1.
  now destruct (remove path w) as [[[]| |] w'].
Qed.

(** X5.  After [rm] has returned 0 the name is gone: it no longer
    resolves, [file_exists] answers 0, and a second [rm] of the same
    argument fails with -1 and the error message. *)
Theorem rm_then_gone (args : string) (w w' : World) :
  rm args w = (Returned 0, w') ->
  resolve w' (c_str args) = None
  /\ fst (file_exists (c_str args) w') = Returned 0
  /\ rm args w' = (Returned (-1), emit true Error "Failed to delete file" w').
Proof.
  intros H. rewrite rm_unfold in H.
  destruct (empty args) eqn:He; [discriminate H|].
  destruct (remove_cases (c_str args) w) as [[E _] | E];
    rewrite E in H; [|discriminate H].
  injection H as <-.
  pose proof (resolve_deleted (c_str args) w) as Hr.
  refine (conj Hr (conj _ _)).
  - unfold file_exists, bind, stat. now rewrite Hr.
  - rewrite rm_unfold, He. now rewrite (remove_missing _ _ Hr).
Qed.

Lemma rm_then_gone_witness :
  fst (file_exists "/a.txt" (snd (rm "/a.txt" Sample.world))) = Returned 0.
Proof.
  apply (rm_then_gone "/a.txt" Sample.world
           (snd (rm "/a.txt" Sample.world))).
  reflexivity.
Defined.

(** X6.  The command [rm] and the boundary function [delete_file] do the
    same to the file system and return the same status on every argument;
    on a non-empty argument they differ only in that [delete_file] also
    reports a success, with one message printed after the deletion. *)
Theorem rm_agrees_with_delete_file (args : string) (w : World) :
  fst (rm args w) = fst (delete_file (c_str args) w)
  /\ vfs (snd (rm args w)) = vfs (snd (delete_file (c_str args) w))
  /\ (args <> EmptyString ->
      (fst (rm args w) = Returned 0 ->
       snd (delete_file (c_str args) w)
       = emit true Info "File deleted successfully" (snd (rm args w)))
      /\ (fst (rm args w) = Returned (-1) ->
          snd (delete_file (c_str args) w) = snd (rm args w))).
Proof.
  rewrite rm_unfold, delete_file_unfold.
  destruct args as [|a args].
  - cbn [empty c_str]. rewrite (remove_missing "" w eq_refl).
    refine (conj eq_refl (conj eq_refl _)). intros Hne. now destruct Hne.
  - cbn [empty].
    destruct (remove_cases (c_str (String a args)) w) as [[E _] | E];
      rewrite E; cbn [fst snd];
      refine (conj eq_refl (conj eq_refl (fun _ => conj _ _)));
      intros Hs; first [discriminate Hs | reflexivity].
Qed.

Lemma rm_agrees_with_delete_file_witness :
  snd (delete_file "/a.txt" Sample.world)
  = emit true Info "File deleted successfully"
      (snd (rm "/a.txt" Sample.world)).
Proof.
  apply (rm_agrees_with_delete_file "/a.txt" Sample.world);
    [discriminate | reflexivity].
Defined.

End Removing.

(** ** Writing, then reading or removing *)

Section Writing.
Import Frame SizeT CxxString CxxSubstr Console Sys Spec commands kernel.

(** What a successful [write_file] leaves behind. *)
Lemma write_file_done (p c : string) (w w' : World) :
  write_file p c w = (Returned 0, w') ->
  empty p = false
  /\ w' = emit true Info "File written successfully"
            (with_vfs (<[p := IFile (c_str c)]> (vfs w)) w)
  /\ resolve w' p = Some (IFile (c_str c)).
Proof.
  intros H.
  destruct (write_file_cases p c w) as [[_ E] | [Hp E]];
    rewrite E in H; [discriminate H|].
  injection H as <-. refine (conj Hp (conj eq_refl _)).
  unfold resolve. rewrite Hp. cbn [vfs emit with_console with_vfs].
  apply lookup_insert_eq.
Qed.

Lemma c_str_terminated (d : string) :
  c_str (d +:+ String NUL EmptyString) = c_str d.
Proof.
  induction d as [|x d IH]; cbn -[Ascii.eqb]; [reflexivity|].
  destruct (Ascii.eqb x NUL); [reflexivity | now rewrite IH].
Qed.

(** X7.  A file written through the boundary is there for the shell:
    after a successful [write_file p c], for a path without NUL byte,
    [file_exists p] answers 1 and, unless the read fails, [cat p] returns
    0 and prints the stored bytes as one message. *)
Theorem write_file_then_cat (p c : string) (w w' : World) :
  strlen c < modulus ->
  nul_free p = true ->
  write_file p c w = (Returned 0, w') ->
  fst (file_exists p w') = Returned 1
  /\ (io_fault w' p = false ->
      cat p w' = (Returned 0, emit true Info (c_str c) w')).
Proof.
  intros Hfit Hn H.
  destruct (write_file_done _ _ _ _ H) as (Hp & _ & Hr).
  split.
  - unfold file_exists, bind, stat. now rewrite Hr.
  - intros Hio. rewrite cat_unfold; rewrite (c_str_nul_free _ Hn).
    + rewrite Hp, Hr, Hio.
      now rewrite (c_str_nul_free _ (nul_free_c_str c)).
    + intros d. rewrite Hr. now intros [= <-].
Qed.

Lemma write_file_then_cat_witness :
  fst (file_exists "/f" (snd (write_file "/f" "abc" Sample.world)))
  = Returned 1.
Proof.
  apply (write_file_then_cat "/f" "abc" Sample.world
           (snd (write_file "/f" "abc" Sample.world)));
    reflexivity.
Defined.

(** X8.  Deleting undoes writing: after a successful [write_file p c],
    [delete_file p] returns 0 and reports it, and from then on the path
    does not resolve, [file_exists p] answers 0 and [read_file p] returns
    null. *)
Theorem write_file_then_delete_file (p c : string) (w w1 : World) :
  write_file p c w = (Returned 0, w1) ->
  let w2 := snd (delete_file p w1) in
  fst (delete_file p w1) = Returned 0
  /\ printed w2
     = (printed w1 ++ [(Info, "File deleted successfully")])%list
  /\ resolve w2 p = None
  /\ fst (file_exists p w2) = Returned 0
  /\ fst (read_file p w2) = Returned None.
Proof.
  intros H w2. destruct (write_file_done _ _ _ _ H) as (Hp & _ & Hr).
  assert (remove p w1 = (Returned true, with_vfs (delete p (vfs w1)) w1))
    as E by (unfold remove; now rewrite Hr).
  assert (resolve w2 p = None) as Hgone.
  { subst w2. rewrite delete_file_unfold, E. cbn [snd].
    apply (resolve_deleted p w1). }
  subst w2. rewrite delete_file_unfold, E in *. cbn [fst snd] in *.
  refine (conj eq_refl (conj eq_refl (conj Hgone (conj _ _)))).
  - unfold file_exists, bind, stat. now rewrite Hgone.
  - unfold read_file, try_catch, bind, ifstream_ate. now rewrite Hgone.
Qed.

Lemma write_file_then_delete_file_witness :
  fst (read_file "/f"
         (snd (delete_file "/f"
                 (snd (write_file "/f" "abc" Sample.world)))))
  = Returned None.
Proof.
  apply (write_file_then_delete_file "/f" "abc" Sample.world
           (snd (write_file "/f" "abc" Sample.world))).
  reflexivity.
Defined.

(** X9.  The last write wins: [write_file] opens in truncating mode, so
    after two successful writes to one path the file holds the second
    content only. *)
Theorem write_file_twice (p c1 c2 : string) (w w1 w2 : World) :
  write_file p c1 w = (Returned 0, w1) ->
  write_file p c2 w1 = (Returned 0, w2) ->
  resolve w2 p = Some (IFile (c_str c2)).
Proof.
  intros H1 H2.
  destruct (write_file_done _ _ _ _ H1) as (_ & -> & _).
  now destruct (write_file_done _ _ _ _ H2) as (_ & -> & Hr).
Qed.

Lemma write_file_twice_witness :
  resolve (snd (write_file "/a.txt" "x"
                  (snd (write_file "/a.txt" "longer" Sample.world))))
          "/a.txt"
  = Some (IFile "x").
Proof.
  apply (write_file_twice "/a.txt" "longer" "x" Sample.world
           (snd (write_file "/a.txt" "longer" Sample.world))
           (snd (write_file "/a.txt" "x"
                   (snd (write_file "/a.txt" "longer" Sample.world)))));
    reflexivity.
Defined.

(** X10.  [read_file] is exact and silent: a file whose bytes fit
    [size_t] comes back byte for byte, NUL bytes included, followed by the
    terminator, in a block of one byte more than the file, when the
    allocation and the read succeed; the world is then exactly as
    before, with no message printed. *)
Theorem read_file_exact (p d : string) (w : World) :
  resolve w p = Some (IFile d) ->
  size d < npos ->
  heap w (size d + 1) <> None ->
  io_fault w p = false ->
  exists buffer,
    read_file p w = (Returned (Some buffer), w)
    /\ buffer = d +:+ String NUL EmptyString
    /\ size buffer = size d + 1
    /\ take (String.length d) buffer = d.
Proof.
  intros Hr Hfit Hh Hio. exists (d +:+ String NUL EmptyString).
  rewrite read_file_unfold by (intros d'; rewrite Hr; now intros [= <-]).
  rewrite Hr, Hio. destruct (heap w (size d + 1)); [|now destruct Hh].
  refine (conj eq_refl (conj eq_refl (conj _ _))).
  - rewrite size_app. reflexivity.
  - apply take_app_exact.
Qed.

Lemma read_file_exact_witness :
  exists buffer,
    read_file "/blob" Sample.world = (Returned (Some buffer), Sample.world)
    /\ buffer = Sample.a_nul_b +:+ String NUL EmptyString
    /\ size buffer = size Sample.a_nul_b + 1
    /\ take (String.length Sample.a_nul_b) buffer = Sample.a_nul_b.
Proof.
  apply (read_file_exact "/blob" Sample.a_nul_b Sample.world);
    [reflexivity | reflexivity | discriminate | reflexivity].
Defined.

(** X11.  [cat] prints what [read_file] returns, read as a C string:
    whenever [read_file] on the C string of a non-empty argument returns a
    block, [cat] on that argument returns 0 and its one message is the
    content of the block up to the first NUL. *)
Theorem cat_prints_what_read_file_returns (args buffer : string)
    (w w1 : World) :
  (forall d, resolve w (c_str args) = Some (IFile d) -> size d < npos) ->
  args <> EmptyString ->
  read_file (c_str args) w = (Returned (Some buffer), w1) ->
  cat args w = (Returned 0, emit true Info (c_str buffer) w).
Proof.
  intros Hfit Hne H. rewrite (read_file_unfold _ w Hfit) in H.
  rewrite cat_unfold
    by (intros d Hd; specialize (Hfit d Hd); rewrite npos_value in Hfit;
        unfold modulus, bits; lia).
  destruct args as [|a args]; [now destruct Hne|]. cbn [empty].
  destruct (resolve w (c_str (String a args))) as [[d|names]|];
    try discriminate H.
  destruct (heap w (size d + 1)); [|discriminate H].
  destruct (io_fault w (c_str (String a args))); [discriminate H|].
  injection H as <- <-. now rewrite c_str_terminated.
Qed.

Lemma cat_prints_what_read_file_returns_witness :
  cat "/blob" Sample.world
  = (Returned 0,
     emit true Info (c_str (Sample.a_nul_b +:+ String NUL EmptyString))
          Sample.world).
Proof.
  apply (cat_prints_what_read_file_returns "/blob" _ Sample.world
           Sample.world).
  - intros d H. vm_compute in H. injection H as <-. reflexivity.
  - discriminate.
  - reflexivity.
Defined.

End Writing.

(** ** [echo] with a target *)

Section Redirecting.
Import Frame SizeT CxxString CxxSubstr Console Sys Spec commands kernel.

Lemma rtrim_all_blank (s : string) :
  all_blank s = true -> rtrim s = EmptyString.
Proof.
  induction s as [|x s IH]; cbn -[mem]; [reflexivity|].
  intros H. apply andb_true_iff in H as [Hx Hs]. now rewrite (IH Hs), Hx.
Qed.

Lemma size_rtrim (s : string) : size (rtrim s) <= size s.
Proof.
  destruct (rtrim_spec s) as (b & E & _).
  rewrite E at 2. rewrite size_app. pose proof (size_nonneg b). lia.
Qed.

(** What a successful redirected [echo] has done. *)
Lemma echo_redirect_done (args before after : string) (w w' : World) :
  size args < npos ->
  cut ">" args = Some (before, after) ->
  echo args w = (Returned 0, w') ->
  all_blank after = false
  /\ empty (c_str (ltrim after)) = false
  /\ w' = with_vfs
            (<[c_str (ltrim after) := IFile (rtrim before)]> (vfs w)) w.
Proof.
  intros Hs Hc H. destruct (all_blank after) eqn:Hb.
  - rewrite (echo_blank_target _ _ _ w Hs Hc Hb) in H. discriminate H.
  - rewrite (echo_redirect _ _ _ w Hs Hc Hb) in H.
    destruct (ofstream_cases (c_str (ltrim after)) w) as [E | E];
      rewrite (bind_returned _ _ _ _ _ E) in H; [discriminate H|].
    rewrite (bind_returned _ _ _ _ _ (write_after_open _ _ _)) in H.
    injection H as <-.
    refine (conj eq_refl (conj (ofstream_nonempty _ _ _ _ E) eq_refl)).
Qed.

(** X12.  What [echo] redirects, [cat] shows: after [echo] with a [>]
    has returned 0, [cat] on the target (the text after the first [>],
    left-trimmed) returns 0, unless the read fails, and prints the text
    before the [>], right-trimmed, as one message (up to a NUL byte, if it
    has one). *)
Theorem echo_then_cat (args before after : string) (w w' : World) :
  size args < npos ->
  cut ">" args = Some (before, after) ->
  echo args w = (Returned 0, w') ->
  io_fault w (c_str (ltrim after)) = false ->
  cat (ltrim after) w'
  = (Returned 0, emit true Info (c_str (rtrim before)) w').
Proof.
  intros Hs Hc H Hio.
  destruct (echo_redirect_done _ _ _ _ _ Hs Hc H) as (Hb & Hp & ->).
  set (file := c_str (ltrim after)) in *.
  assert (resolve
            (with_vfs (<[file := IFile (rtrim before)]> (vfs w)) w) file
          = Some (IFile (rtrim before))) as Hr.
  { unfold resolve. rewrite Hp. cbn [vfs with_vfs].
    apply lookup_insert_eq. }
  rewrite cat_unfold; fold file.
  - destruct (ltrim after) as [|a rest] eqn:El;
      [subst file; cbn in Hp; discriminate Hp|]. cbn [empty].
    rewrite Hr. cbn [io_fault with_vfs]. now rewrite Hio.
  - intros d. rewrite Hr. intros [= <-].
    apply cut_present in Hc as [-> _].
    rewrite size_app in Hs. pose proof (size_rtrim before).
    pose proof (size_nonneg (String ">" after)).
    rewrite npos_value in Hs. unfold modulus, bits. lia.
Qed.

Lemma echo_then_cat_witness :
  cat "/out.txt" (snd (echo "hi  >  /out.txt" Sample.world))
  = (Returned 0,
     emit true Info "hi" (snd (echo "hi  >  /out.txt" Sample.world))).
Proof.
  apply (echo_then_cat "hi  >  /out.txt" "hi  " "  /out.txt" Sample.world
           (snd (echo "hi  >  /out.txt" Sample.world)));
    reflexivity.
Defined.

(** X13.  [echo] with nothing but spaces and tabs before the [>] empties
    the target: when it returns 0 the file exists and holds no byte,
    whatever it held before. *)
Theorem echo_nothing_truncates (args before after : string)
    (w w' : World) :
  size args < npos ->
  cut ">" args = Some (before, after) ->
  all_blank before = true ->
  echo args w = (Returned 0, w') ->
  resolve w' (c_str (ltrim after)) = Some (IFile EmptyString)
  /\ fst (file_exists (c_str (ltrim after)) w') = Returned 1.
Proof.
  intros Hs Hc Hb H.
  destruct (echo_redirect_done _ _ _ _ _ Hs Hc H) as (_ & Hp & ->).
  rewrite (rtrim_all_blank _ Hb).
  assert (resolve
            (with_vfs (<[c_str (ltrim after) := IFile EmptyString]> (vfs w))
                      w)
            (c_str (ltrim after)) = Some (IFile EmptyString)) as Hr.
  { unfold resolve. rewrite Hp. cbn [vfs with_vfs].
    apply lookup_insert_eq. }
  split; [exact Hr|]. unfold file_exists, bind, stat. now rewrite Hr.
Qed.

Lemma echo_nothing_truncates_witness :
  resolve (snd (echo " > /a.txt" Sample.world)) "/a.txt"
  = Some (IFile EmptyString).
Proof.
  apply (echo_nothing_truncates " > /a.txt" " " " /a.txt" Sample.world
           (snd (echo " > /a.txt" Sample.world)));
    reflexivity.
Defined.

End Redirecting.

(** ** Lines that name no command, lines that throw *)

Section Lines.
Import Frame SizeT CxxString CxxSubstr Console Sys Spec commands kernel.

Lemma size_c_str (s : string) : size (c_str s) <= size s.
Proof.
  unfold size. induction s as [|x s IH]; cbn -[Ascii.eqb]; [lia|].
  destruct (Ascii.eqb x NUL); cbn; lia.
Qed.

(** X15.  A line that starts with a space has the empty name, which is
    not registered: the dispatcher, and [execute] on such a line, print
    [Unknown command] and return -1 without running a handler, whatever
    follows the space.  The empty line is answered the same way by the
    dispatcher. *)
Theorem leading_space_is_unknown (rest : string) (w : World) :
  size (String " " rest) < npos ->
  execute_command EmptyString w
  = (Returned (-1), emit true Error "Unknown command" w)
  /\ execute_command (String " " rest) w
     = (Returned (-1), emit true Error "Unknown command" w)
  /\ execute (Some (String " " rest)) w
     = (Returned (-1), emit true Error "Unknown command" w).
Proof.
  intros Hs. refine (conj eq_refl (conj _ _)).
  - now rewrite (execute_command_unfold _ w Hs).
  - unfold execute.
    change (c_str (String " " rest)) with (String " " (c_str rest)).
    cbn [empty negb]. rewrite execute_command_unfold; [reflexivity|].
    rewrite size_cons in *. pose proof (size_c_str rest). lia.
Qed.

Lemma leading_space_is_unknown_witness :
  execute (Some " ls /") Sample.world
  = (Returned (-1), emit true Error "Unknown command" Sample.world).
Proof.
  apply (leading_space_is_unknown "ls /" Sample.world). reflexivity.
Defined.

(** X16.  Every line [echo <text>><blanks>], where no [>] occurs in the
    text and only spaces and tabs, or nothing, follow the [>], makes
    [execute] unwind with [std::out_of_range]: no status is returned, no
    message is printed and no file is touched. *)
Theorem blank_target_unwinds_execute (before after : string) (w : World) :
  let line := "echo " +:+ before +:+ String ">" after in
  size line < npos ->
  nul_free line = true ->
  mem ">" before = false ->
  all_blank after = true ->
  execute (Some line) w = (Thrown out_of_range, w)
  /\ execute_command line w = (Thrown out_of_range, w).
Proof.
  intros line Hs Hn Hm Hb.
  set (args := before +:+ String ">" after).
  assert (split_line line = ("echo", args)) as Hsplit by reflexivity.
  assert (size line = 5 + size args) as Hsize
    by (subst line; fold args; now rewrite size_app).
  assert (execute_command line w = (Thrown out_of_range, w)) as He.
  { rewrite (execute_command_unfold _ w Hs), Hsplit. cbn [fst snd].
    change (registered "echo") with (Some echo). cbv beta iota.
    apply (echo_blank_target args before after);
      [ clear -Hs Hsize; clearbody line args; lia
      | apply cut_present; split; [reflexivity | exact Hm]
      | exact Hb ]. }
  split; [|exact He].
  unfold execute. rewrite (c_str_nul_free _ Hn).
  assert (empty line = false) as -> by reflexivity. exact He.
Qed.

Lemma blank_target_unwinds_execute_witness :
  execute (Some "echo hello world >  ") Sample.world
  = (Thrown out_of_range, Sample.world).
Proof.
  apply (blank_target_unwinds_execute "hello world " "  " Sample.world);
    reflexivity.
Defined.

End Lines.

(** ** Reading a listing back *)

Section ListingBack.
Import Frame SizeT CxxString CxxSubstr Console Sys Spec commands kernel.

Lemma lines_from_entry (current e rest : string) :
  newline_free e = true ->
  lines_from current (e +:+ String "010" rest)
  = (current +:+ e) :: lines_from EmptyString rest.
Proof.
  unfold newline_free. revert current.
  induction e as [|x e IH]; intros current; cbn -[Ascii.eqb mem].
  - intros _. rewrite Ascii.eqb_refl. now rewrite app_empty_r.
  - cbn -[Ascii.eqb]. rewrite negb_true_iff, orb_false_iff.
    intros [Hx He]. rewrite Ascii.eqb_sym, Hx.
    rewrite IH by now rewrite He. now rewrite app_assoc_s.
Qed.

Lemma lines_newline_joined (entries : list string) :
  Forall (fun e => newline_free e = true) entries ->
  lines (newline_joined entries) = entries.
Proof.
  unfold lines. induction 1 as [|e entries He _ IH];
    cbn [newline_joined]; [reflexivity|].
  change (String "010" EmptyString +:+ newline_joined entries)
    with (String "010" (newline_joined entries)).
  now rewrite (lines_from_entry _ _ _ He), IH.
Qed.

(** The block [list_directory] returns holds, as a C string, the names
    joined by newlines. *)
Lemma listing_block (path buffer : string) (w w' : World) :
  (forall names, resolve w path = Some (IDir names) ->
     size (newline_joined (List.map c_str names)) < npos) ->
  list_directory path w = (Returned (Some buffer), w') ->
  exists names,
    resolve w path = Some (IDir names)
    /\ c_str buffer = newline_joined (List.map c_str names).
Proof.
  intros Hfit H. rewrite (list_directory_unfold _ w Hfit) in H.
  destruct (resolve w path) as [[d|names]|]; try discriminate H.
  cbv zeta in H. destruct (heap w _); [|discriminate H].
  injection H as <- _. exists names. split; [reflexivity|].
  rewrite c_str_terminated.
  apply c_str_nul_free, nul_free_newline_joined, readdir_names_nul_free.
Qed.

(** X17.  The listing can be read back: when no entry name holds a
    newline, cutting the C string in the block [list_directory] returns
    after every newline gives back exactly the names the directory
    iteration yielded, [.] and [..] included, in that order. *)
Theorem list_directory_reads_back (path buffer : string) (w w' : World) :
  (forall names, resolve w path = Some (IDir names) ->
     size (newline_joined (List.map c_str names)) < npos) ->
  (forall names, resolve w path = Some (IDir names) ->
     Forall (fun e => newline_free e = true) (List.map c_str names)) ->
  list_directory path w = (Returned (Some buffer), w') ->
  fst (opendir path w) = Returned (Some (lines (c_str buffer))).
Proof.
  intros Hfit Hnl H.
  destruct (listing_block _ _ _ _ Hfit H) as (names & Hr & ->).
  unfold opendir. rewrite Hr. cbn [fst].
  now rewrite (lines_newline_joined _ (Hnl names Hr)).
Qed.

Lemma list_directory_reads_back_witness :
  fst (opendir "/docs" Sample.world)
  = Returned (Some (lines (c_str (newline_joined ["."; ".."]
                                  +:+ String NUL EmptyString)))).
Proof.
  apply (list_directory_reads_back "/docs" _ Sample.world Sample.world).
  - intros names H. vm_compute in H. injection H as <-. reflexivity.
  - intros names H. vm_compute in H. injection H as <-.
    repeat constructor.
  - reflexivity.
Defined.

(** X18.  The command and the boundary function list the same entries:
    whenever [list_directory] returns a block for a non-empty path without
    NUL byte, [ls] on that path returns 0 and prints, after its three
    heading messages, one line for each name read back from the block, in
    the same order. *)
Theorem ls_lists_the_block (path buffer : string) (w w' : World) :
  (forall names, resolve w path = Some (IDir names) ->
     size (newline_joined (List.map c_str names)) < npos) ->
  (forall names, resolve w path = Some (IDir names) ->
     Forall (fun e => newline_free e = true) (List.map c_str names)) ->
  nul_free path = true ->
  list_directory path w = (Returned (Some buffer), w') ->
  fst (ls path w) = Returned 0
  /\ printed (snd (ls path w))
     = (printed w
        ++ [(Info, "ls command executing"); (Info, "Listing directory:");
            (Info, path)]
        ++ List.map
             (fun e => (Info, entry_line (query w (joined path e)) e))
             (lines (c_str buffer)))%list.
Proof.
  intros Hfit Hnl Hn H.
  destruct (listing_block _ _ _ _ Hfit H) as (names & Hr & ->).
  rewrite (lines_newline_joined _ (Hnl names Hr)).
  assert (empty path = false) as He
    by (unfold resolve in Hr; now destruct (empty path)).
  rewrite ls_unfold. cbv zeta. rewrite He, (c_str_nul_free _ Hn), Hr.
  unfold bind at 1 2.
  rewrite (readdir_loop_lines path (List.map c_str names) w _ Hn
             (readdir_names_nul_free names) (vfs_emit_all _ _)).
  cbn [fst snd ret]. split; [reflexivity|].
  now rewrite !printed_emit_all, <- app_assoc.
Qed.

Lemma ls_lists_the_block_witness :
  fst (ls "/docs" Sample.world) = Returned 0.
Proof.
  apply (ls_lists_the_block "/docs"
           (newline_joined ["."; ".."] +:+ String NUL EmptyString)
           Sample.world Sample.world).
  - intros names H. vm_compute in H. injection H as <-. reflexivity.
  - intros names H. vm_compute in H. injection H as <-.
    repeat constructor.
  - reflexivity.
  - reflexivity.
Defined.

(** What looks like two entries when a name holds a newline. *)
Example newline_in_a_name_splits :
  lines (newline_joined [String "a" (String "010" "b")]) = ["a"; "b"].
Proof. reflexivity. Qed.

End ListingBack.
